(** * Peer Close Manager (bgp/bgp_peer_close.cc)

    A shallow embedding of [PeerCloseManager]: the seven-state close machine,
    its membership gate, the restart and sweep timers, the statistics and the
    per-path callback used by RIB-In walks.  The member functions are written
    in a small state-and-failure monad over the manager's fields; calls made
    into the owning peer and into the membership manager are recorded, in
    order, in a call log. *)

From Stdlib Require Import ZArith Lia Bool.
From stdpp Require Import base decidable option list gmap sets strings.

Set Default Proof Using "Type".

(** ** Data model *)

(** [PeerCloseManager::State]. *)
Inductive State : Type :=
  | NONE | STALE | GR_TIMER | LLGR_STALE | LLGR_TIMER | SWEEP | DELETE.

#[global] Instance State_eq_dec : EqDecision State.
Proof. solve_decision. Defined.

(** [==] on states. *)
Definition State_eqb (a b : State) : bool :=
  match a, b with
  | NONE, NONE | STALE, STALE | GR_TIMER, GR_TIMER | LLGR_STALE, LLGR_STALE
  | LLGR_TIMER, LLGR_TIMER | SWEEP, SWEEP | DELETE, DELETE => true
  | _, _ => false
  end.

(** Modelled from the spec: the header declaring [enum State] is not among
    the sources; the enumerators are numbered in the order of the spec's
    data model (NONE first).  Only the fact that a bare [LLGR_STALE] is a
    non-zero integer is ever used, in the guard of
    [MembershipRequestCallbackInternal]. *)
Definition State_value (st : State) : Z :=
  match st with
  | NONE => 0 | STALE => 1 | GR_TIMER => 2 | LLGR_STALE => 3
  | LLGR_TIMER => 4 | SWEEP => 5 | DELETE => 6
  end%Z.

(** [PeerCloseManager::MembershipState]. *)
Inductive MembershipState : Type :=
  | MEMBERSHIP_NONE | MEMBERSHIP_IN_USE | MEMBERSHIP_IN_WAIT.

#[global] Instance MembershipState_eq_dec : EqDecision MembershipState.
Proof. solve_decision. Defined.

Definition MembershipState_eqb (a b : MembershipState) : bool :=
  match a, b with
  | MEMBERSHIP_NONE, MEMBERSHIP_NONE | MEMBERSHIP_IN_USE, MEMBERSHIP_IN_USE
  | MEMBERSHIP_IN_WAIT, MEMBERSHIP_IN_WAIT => true
  | _, _ => false
  end.

(** Modelled from the spec: [Address::Family] is declared outside the
    sources; a family is identified by a number and [UNSPEC] is a
    distinguished one. *)
Definition Family : Type := nat.
Definition UNSPEC : Family := 0%nat.

(** A table handle, as returned by [GetRegisteredRibs]. *)
Definition BgpTable : Type := nat.

(** [PeerCloseManager::Stats]: one counter per field of [stats_]. *)
Record Stats : Type := mkStats {
  init : nat;
  close : nat;
  nested : nat;
  deletes : nat;
  stale : nat;
  llgr_stale : nat;
  sweep : nat;
  gr_timer : nat;
  llgr_timer : nat
}.

(** Modelled from the spec: the [Timer] class is not among the sources.  A
    timer is one-shot and cancellable: [Start] schedules one expiry after the
    given delay (in milliseconds), [Cancel] withdraws every scheduled
    expiry. *)
Record Timer : Type := mkTimer { scheduled : list Z }.

Definition Timer_Cancel (t : Timer) : Timer := mkTimer [].
Definition Timer_Start (time : Z) (t : Timer) : Timer :=
  mkTimer (scheduled t ++ [time]).

(** Calls made by the manager into its collaborators, in program order. *)
Inductive Call : Type :=
  | IPeerClose_GracefulRestartStale
  | IPeerClose_CustomClose
  | IPeerClose_CloseComplete
  | IPeerClose_Delete
  | IPeerClose_GracefulRestartSweep
  | Mgr_Unregister (table : BgpTable)
  | Mgr_UnregisterRibOut (table : BgpTable)
  | Mgr_UnregisterRibIn (table : BgpTable)
  | Mgr_WalkRibIn (table : BgpTable).

#[global] Instance Call_eq_dec : EqDecision Call.
Proof. solve_decision. Defined.

(** The manager's fields, together with the log of collaborator calls. *)
Record PeerCloseManager : Type := mkPCM {
  state_ : State;
  close_again_ : bool;
  non_graceful_ : bool;
  gr_elapsed_ : Z;
  llgr_elapsed_ : Z;
  membership_state_ : MembershipState;
  families_ : gset Family;
  stats_ : Stats;
  stale_timer_ : Timer;
  sweep_timer_ : Timer;
  calls : list Call
}.

(** The constructor: everything at its initial value, [stats_.init++]. *)
Definition PeerCloseManager_new : PeerCloseManager :=
  mkPCM NONE false false 0 0 MEMBERSHIP_NONE ∅
        (mkStats 1 0 0 0 0 0 0 0 0) (mkTimer []) (mkTimer []) [].

(** *** The collaborators *)

(** What the membership manager answers for this peer. *)
Record BgpMembershipManager : Type := mkMgr {
  GetRegisteredRibs : list BgpTable;
  IsRegistered : BgpTable -> bool;
  IsRibInRegistered : BgpTable -> bool;
  IsPending : bool
}.

(** What the peer, the server and the timer service answer while one handler
    runs under the lock.  [GetGracefulRestartFamilies] receives a pointer to
    [families_] and may rewrite the set as it likes. *)
Record Env : Type := mkEnv {
  IsCloseGraceful : bool;
  IsCloseLongLivedGraceful : bool;
  IsReady : bool;
  GetGracefulRestartTime : Z;
  GetLongLivedGracefulRestartTime : Z;
  GetGracefulRestartFamilies : gset Family -> gset Family;
  peer_CanUseMembershipManager : bool;
  server_membership_mgr : option BgpMembershipManager;
  GetElapsedTime : Z
}.

(** *** Machine integers *)

(** [int]: 32 bits, two's complement. *)
Definition int_wrap (z : Z) : Z := ((z + 2 ^ 31) mod 2 ^ 32 - 2 ^ 31)%Z.

(** Modelled from the spec: the header declaring [gr_elapsed_] and
    [llgr_elapsed_] is not among the sources; the spec's data model gives
    them as u32. *)
Definition u32_wrap (z : Z) : Z := (z mod 2 ^ 32)%Z.


(** ** The monad: state, assertion failures, recursion budget *)

Inductive Failure : Type :=
  | AssertionFailed
  | NullDereference
  | OutOfFuel.

Inductive Result (A : Type) : Type :=
  | Done (a : A) (w : PeerCloseManager)
  | Fail (f : Failure).
Arguments Done {A} a w.
Arguments Fail {A} f.

Definition M (A : Type) : Type := PeerCloseManager -> Result A.

Definition ret {A} (a : A) : M A := fun w => Done a w.
Definition bind {A B} (c : M A) (k : A -> M B) : M B :=
  fun w => match c w with
           | Done a w' => k a w'
           | Fail f => Fail f
           end.
Definition fail {A} (f : Failure) : M A := fun _ => Fail f.
Definition get {A} (proj : PeerCloseManager -> A) : M A := fun w => Done (proj w) w.
Definition modify (f : PeerCloseManager -> PeerCloseManager) : M unit :=
  fun w => Done tt (f w).
Definition assert (b : bool) : M unit :=
  if b then ret tt else fail AssertionFailed.

Notation "'let*' x := c 'in' k" := (bind c (fun x => k))
  (at level 10, x name, c at level 100, k at level 200).
Notation "c ;; k" := (bind c (fun _ => k))
  (at level 100, k at level 200, right associativity).

(** *** Field updates *)

Definition set_state (v : State) (w : PeerCloseManager) : PeerCloseManager :=
  mkPCM v (close_again_ w) (non_graceful_ w) (gr_elapsed_ w) (llgr_elapsed_ w)
        (membership_state_ w) (families_ w) (stats_ w) (stale_timer_ w)
        (sweep_timer_ w) (calls w).
Definition set_close_again (v : bool) (w : PeerCloseManager) : PeerCloseManager :=
  mkPCM (state_ w) v (non_graceful_ w) (gr_elapsed_ w) (llgr_elapsed_ w)
        (membership_state_ w) (families_ w) (stats_ w) (stale_timer_ w)
        (sweep_timer_ w) (calls w).
Definition set_non_graceful (v : bool) (w : PeerCloseManager) : PeerCloseManager :=
  mkPCM (state_ w) (close_again_ w) v (gr_elapsed_ w) (llgr_elapsed_ w)
        (membership_state_ w) (families_ w) (stats_ w) (stale_timer_ w)
        (sweep_timer_ w) (calls w).
Definition set_gr_elapsed (v : Z) (w : PeerCloseManager) : PeerCloseManager :=
  mkPCM (state_ w) (close_again_ w) (non_graceful_ w) v (llgr_elapsed_ w)
        (membership_state_ w) (families_ w) (stats_ w) (stale_timer_ w)
        (sweep_timer_ w) (calls w).
Definition set_llgr_elapsed (v : Z) (w : PeerCloseManager) : PeerCloseManager :=
  mkPCM (state_ w) (close_again_ w) (non_graceful_ w) (gr_elapsed_ w) v
        (membership_state_ w) (families_ w) (stats_ w) (stale_timer_ w)
        (sweep_timer_ w) (calls w).
Definition set_membership_state (v : MembershipState) (w : PeerCloseManager)
  : PeerCloseManager :=
  mkPCM (state_ w) (close_again_ w) (non_graceful_ w) (gr_elapsed_ w)
        (llgr_elapsed_ w) v (families_ w) (stats_ w) (stale_timer_ w)
        (sweep_timer_ w) (calls w).
Definition set_families (v : gset Family) (w : PeerCloseManager) : PeerCloseManager :=
  mkPCM (state_ w) (close_again_ w) (non_graceful_ w) (gr_elapsed_ w)
        (llgr_elapsed_ w) (membership_state_ w) v (stats_ w) (stale_timer_ w)
        (sweep_timer_ w) (calls w).
Definition set_stats (v : Stats) (w : PeerCloseManager) : PeerCloseManager :=
  mkPCM (state_ w) (close_again_ w) (non_graceful_ w) (gr_elapsed_ w)
        (llgr_elapsed_ w) (membership_state_ w) (families_ w) v (stale_timer_ w)
        (sweep_timer_ w) (calls w).
Definition set_stale_timer (v : Timer) (w : PeerCloseManager) : PeerCloseManager :=
  mkPCM (state_ w) (close_again_ w) (non_graceful_ w) (gr_elapsed_ w)
        (llgr_elapsed_ w) (membership_state_ w) (families_ w) (stats_ w) v
        (sweep_timer_ w) (calls w).
Definition set_sweep_timer (v : Timer) (w : PeerCloseManager) : PeerCloseManager :=
  mkPCM (state_ w) (close_again_ w) (non_graceful_ w) (gr_elapsed_ w)
        (llgr_elapsed_ w) (membership_state_ w) (families_ w) (stats_ w)
        (stale_timer_ w) v (calls w).
Definition log_call (c : Call) (w : PeerCloseManager) : PeerCloseManager :=
  mkPCM (state_ w) (close_again_ w) (non_graceful_ w) (gr_elapsed_ w)
        (llgr_elapsed_ w) (membership_state_ w) (families_ w) (stats_ w)
        (stale_timer_ w) (sweep_timer_ w) (calls w ++ [c]).

(** [stats_.field++], one per counter. *)
Definition inc_init (s : Stats) : Stats :=
  mkStats (S (init s)) (close s) (nested s) (deletes s) (stale s)
          (llgr_stale s) (sweep s) (gr_timer s) (llgr_timer s).
Definition inc_close (s : Stats) : Stats :=
  mkStats (init s) (S (close s)) (nested s) (deletes s) (stale s)
          (llgr_stale s) (sweep s) (gr_timer s) (llgr_timer s).
Definition inc_nested (s : Stats) : Stats :=
  mkStats (init s) (close s) (S (nested s)) (deletes s) (stale s)
          (llgr_stale s) (sweep s) (gr_timer s) (llgr_timer s).
Definition inc_deletes (s : Stats) : Stats :=
  mkStats (init s) (close s) (nested s) (S (deletes s)) (stale s)
          (llgr_stale s) (sweep s) (gr_timer s) (llgr_timer s).
Definition inc_stale (s : Stats) : Stats :=
  mkStats (init s) (close s) (nested s) (deletes s) (S (stale s))
          (llgr_stale s) (sweep s) (gr_timer s) (llgr_timer s).
Definition inc_llgr_stale (s : Stats) : Stats :=
  mkStats (init s) (close s) (nested s) (deletes s) (stale s)
          (S (llgr_stale s)) (sweep s) (gr_timer s) (llgr_timer s).
Definition inc_sweep (s : Stats) : Stats :=
  mkStats (init s) (close s) (nested s) (deletes s) (stale s)
          (llgr_stale s) (S (sweep s)) (gr_timer s) (llgr_timer s).
Definition inc_gr_timer (s : Stats) : Stats :=
  mkStats (init s) (close s) (nested s) (deletes s) (stale s)
          (llgr_stale s) (sweep s) (S (gr_timer s)) (llgr_timer s).
Definition inc_llgr_timer (s : Stats) : Stats :=
  mkStats (init s) (close s) (nested s) (deletes s) (stale s)
          (llgr_stale s) (sweep s) (gr_timer s) (S (llgr_timer s)).

Definition stat (f : Stats -> Stats) : M unit :=
  modify (fun w => set_stats (f (stats_ w)) w).
Definition call (c : Call) : M unit := modify (log_call c).

(** ** The member functions *)

(** [MOVE_TO_STATE]: asserts that the state really changes. *)
Definition MOVE_TO_STATE (st : State) : M unit :=
  let* cur := get state_ in
  assert (negb (State_eqb cur st)) ;;
  modify (set_state st).

(** [StartRestartTimer]: cancel, then start. *)
Definition StartRestartTimer (time : Z) : M unit :=
  modify (fun w => set_stale_timer (Timer_Cancel (stale_timer_ w)) w) ;;
  modify (fun w => set_stale_timer (Timer_Start time (stale_timer_ w)) w).

(** [TriggerSweepStateActions]: the sweep timer is started to fire right
    away; its callback is [ProcessSweepStateActions]. *)
Definition TriggerSweepStateActions : M unit :=
  modify (fun w => set_sweep_timer (Timer_Cancel (sweep_timer_ w)) w) ;;
  modify (fun w => set_sweep_timer (Timer_Start 0 (sweep_timer_ w)) w).

Definition CanUseMembershipManager (e : Env) : bool :=
  peer_CanUseMembershipManager e.

Definition membership_mgr (e : Env) : option BgpMembershipManager :=
  server_membership_mgr e.

(** [IsMembershipPending] dereferences the manager without a null check. *)
Definition IsMembershipPending (e : Env) : M bool :=
  match server_membership_mgr e with
  | Some mgr => ret (IsPending mgr)
  | None => fail NullDereference
  end.

(** The functions below call one another in a cycle whose only back edge is
    [CloseComplete] calling [CloseInternal].  Each body takes that callee as
    the parameter [rec]; the knot is tied by [CloseInternal] further down. *)
Section Bodies.
Variable rec : M unit.
Variable e : Env.

Definition CloseComplete_body : M unit :=
  MOVE_TO_STATE NONE ;;
  modify (fun w => set_stale_timer (Timer_Cancel (stale_timer_ w)) w) ;;
  modify (fun w => set_sweep_timer (Timer_Cancel (sweep_timer_ w)) w) ;;
  modify (set_families ∅) ;;
  stat inc_init ;;
  let* again := get close_again_ in
  if again : bool then
    modify (set_close_again false) ;;
    rec
  else ret tt.

(** The guard of the first assertion: [LLGR_STALE] stands alone in the
    disjunction, so it contributes [LLGR_STALE != 0]. *)
Definition walk_done_guard (st : State) : bool :=
  State_eqb st STALE || negb (State_value LLGR_STALE =? 0)%Z
  || State_eqb st SWEEP || State_eqb st DELETE.

Definition MembershipRequestCallbackInternal_body : M bool :=
  let* st := get state_ in
  assert (walk_done_guard st) ;;
  let* ms := get membership_state_ in
  assert (MembershipState_eqb ms MEMBERSHIP_IN_USE) ;;
  let* pending := IsMembershipPending e in
  if pending : bool then ret false else
  modify (set_membership_state MEMBERSHIP_NONE) ;;
  let* st := get state_ in
  if State_eqb st DELETE then
    MOVE_TO_STATE NONE ;;
    call IPeerClose_Delete ;;
    modify (set_gr_elapsed 0) ;;
    modify (set_llgr_elapsed 0) ;;
    stat inc_init ;;
    modify (set_close_again false) ;;
    modify (set_non_graceful false) ;;
    ret true
  else
  let* again := get close_again_ in
  if again : bool then
    CloseComplete_body ;;
    ret true
  else
  if State_eqb st STALE then
    call IPeerClose_CloseComplete ;;
    MOVE_TO_STATE GR_TIMER ;;
    modify (fun w => set_families (GetGracefulRestartFamilies e (families_ w)) w) ;;
    let* elapsed := get gr_elapsed_ in
    let time := int_wrap (GetGracefulRestartTime e * 1000) in
    let time := int_wrap (time - elapsed) in
    let time := if (time <? 0)%Z then 0%Z else time in
    StartRestartTimer time ;;
    stat inc_gr_timer ;;
    ret true
  else
  if State_eqb st LLGR_STALE then
    MOVE_TO_STATE LLGR_TIMER ;;
    modify (fun w => set_families (GetGracefulRestartFamilies e (families_ w)) w) ;;
    StartRestartTimer (int_wrap (1000 * GetLongLivedGracefulRestartTime e)) ;;
    let* elapsed := get llgr_elapsed_ in
    let time := int_wrap (GetLongLivedGracefulRestartTime e * 1000) in
    let time := int_wrap (time - elapsed) in
    let time := if (time <? 0)%Z then 0%Z else time in
    StartRestartTimer time ;;
    stat inc_llgr_timer ;;
    ret true
  else
    TriggerSweepStateActions ;;
    ret true.

(** The loop over the registered tables. *)
Fixpoint foreach_table (mgr : BgpMembershipManager) (tables : list BgpTable)
  : M unit :=
  match tables with
  | [] => ret tt
  | table :: rest =>
      let* st := get state_ in
      (if IsRegistered mgr table then
         if State_eqb st DELETE
         then call (Mgr_Unregister table)
         else call (Mgr_UnregisterRibOut table)
       else
         assert (IsRibInRegistered mgr table) ;;
         if State_eqb st DELETE
         then call (Mgr_UnregisterRibIn table)
         else call (Mgr_WalkRibIn table)) ;;
      foreach_table mgr rest
  end.

Definition MembershipRequestInternal_body : M unit :=
  let* ms := get membership_state_ in
  assert (negb (MembershipState_eqb ms MEMBERSHIP_IN_USE)) ;;
  if negb (CanUseMembershipManager e) then
    modify (set_membership_state MEMBERSHIP_IN_WAIT)
  else
  modify (set_membership_state MEMBERSHIP_IN_USE) ;;
  match membership_mgr e with
  | None => ret tt
  | Some mgr =>
      let tables := GetRegisteredRibs mgr in
      match tables with
      | [] => MembershipRequestCallbackInternal_body ;; ret tt
      | _ => foreach_table mgr tables
      end
  end.

Definition ProcessClosure_body : M unit :=
  let* st := get state_ in
  match st with
  | NONE =>
      let* ng := get non_graceful_ in
      if ng || negb (IsCloseGraceful e) then
        MOVE_TO_STATE DELETE ;;
        stat inc_deletes
      else
        MOVE_TO_STATE STALE ;;
        stat inc_stale ;;
        call IPeerClose_GracefulRestartStale
  | GR_TIMER =>
      if IsReady e then
        MOVE_TO_STATE SWEEP ;;
        modify (set_gr_elapsed 0) ;;
        modify (set_llgr_elapsed 0) ;;
        stat inc_sweep
      else if IsCloseLongLivedGraceful e then
        MOVE_TO_STATE LLGR_STALE ;;
        stat inc_llgr_stale
      else
        MOVE_TO_STATE DELETE ;;
        stat inc_deletes
  | LLGR_TIMER =>
      if IsReady e then
        MOVE_TO_STATE SWEEP ;;
        modify (set_gr_elapsed 0) ;;
        modify (set_llgr_elapsed 0) ;;
        stat inc_sweep
      else
        MOVE_TO_STATE DELETE ;;
        stat inc_deletes
  | STALE | LLGR_STALE | SWEEP | DELETE =>
      fail AssertionFailed
  end ;;
  let* st := get state_ in
  (if State_eqb st DELETE then call IPeerClose_CustomClose else ret tt) ;;
  MembershipRequestInternal_body.

Definition CloseInternal_body : M unit :=
  stat inc_close ;;
  let* again := get close_again_ in
  if again : bool then ret tt else
  let* st := get state_ in
  match st with
  | NONE => ProcessClosure_body
  | GR_TIMER =>
      modify (set_close_again true) ;;
      stat inc_nested ;;
      modify (fun w => set_gr_elapsed (u32_wrap (gr_elapsed_ w + GetElapsedTime e)) w) ;;
      CloseComplete_body
  | LLGR_TIMER =>
      modify (set_close_again true) ;;
      stat inc_nested ;;
      modify (fun w => set_llgr_elapsed (u32_wrap (llgr_elapsed_ w + GetElapsedTime e)) w) ;;
      CloseComplete_body
  | STALE | LLGR_STALE | SWEEP | DELETE =>
      modify (set_close_again true) ;;
      stat inc_nested
  end.
End Bodies.

(** [CloseInternal], with a budget for the re-entries from [CloseComplete]. *)
Fixpoint CloseInternal (fuel : nat) (e : Env) : M unit :=
  match fuel with
  | O => fail OutOfFuel
  | S fuel' => CloseInternal_body (CloseInternal fuel' e) e
  end.

Definition CloseComplete (fuel : nat) (e : Env) : M unit :=
  CloseComplete_body (CloseInternal fuel e).
Definition MembershipRequestCallbackInternal (fuel : nat) (e : Env) : M bool :=
  MembershipRequestCallbackInternal_body (CloseInternal fuel e) e.
Definition MembershipRequestInternal (fuel : nat) (e : Env) : M unit :=
  MembershipRequestInternal_body (CloseInternal fuel e) e.
Definition ProcessClosure (fuel : nat) (e : Env) : M unit :=
  ProcessClosure_body (CloseInternal fuel e) e.

(** Two nested re-entries are all the code can make (see
    [CloseInternal_fuel] below); the handlers run with that budget. *)
Definition budget : nat := 2.

(** *** The handlers (entry points taking the lock) *)

Definition Close (non_graceful : bool) (e : Env) : M unit :=
  modify (fun w => set_non_graceful (non_graceful_ w || non_graceful) w) ;;
  CloseInternal budget e.

Definition ProcessEORMarkerReceived (family : Family) : M unit :=
  let* st := get state_ in
  let* fams := get families_ in
  if (State_eqb st GR_TIMER || State_eqb st LLGR_TIMER)
     && negb (bool_decide (fams = ∅)) then
    (if Nat.eqb family UNSPEC
     then modify (set_families ∅)
     else modify (fun w => set_families (families_ w ∖ {[family]}) w)) ;;
    let* fams := get families_ in
    if bool_decide (fams = ∅) then StartRestartTimer 0 else ret tt
  else ret tt.

Definition RestartTimerCallback (e : Env) : M bool :=
  let* st := get state_ in
  (if State_eqb st GR_TIMER || State_eqb st LLGR_TIMER
   then ProcessClosure budget e else ret tt) ;;
  ret false.

Definition ProcessSweepStateActions (e : Env) : M bool :=
  let* st := get state_ in
  assert (State_eqb st SWEEP) ;;
  call IPeerClose_GracefulRestartSweep ;;
  CloseComplete budget e ;;
  ret false.

Definition MembershipRequest (e : Env) : M unit :=
  MembershipRequestInternal budget e.

Definition MembershipRequestCallback (e : Env) : M bool :=
  MembershipRequestCallbackInternal budget e.

(** *** Introspection *)

(** [GetStateName]: the switch covers every enumerator, so the trailing
    [assert(false)] is never reached. *)
Definition GetStateName (st : State) : string :=
  match st with
  | NONE => "NONE"
  | GR_TIMER => "GR_TIMER"
  | STALE => "STALE"
  | LLGR_STALE => "LLGR_STALE"
  | LLGR_TIMER => "LLGR_TIMER"
  | SWEEP => "SWEEP"
  | DELETE => "DELETE"
  end.

(** The fields [FillCloseInfo] assigns in the [PeerCloseInfo] it hands to
    [set_peer_close_info]. *)
Record PeerCloseInfo : Type := mkPeerCloseInfo {
  info_state : string;
  info_close_again : bool;
  info_non_graceful : bool;
  info_init : nat;
  info_close : nat;
  info_nested : nat;
  info_deletes : nat;
  info_stale : nat;
  info_sweep : nat;
  info_gr_timer : nat
}.

(** [FillCloseInfo] is a const member: it reads the manager and returns the
    snapshot. *)
Definition FillCloseInfo (w : PeerCloseManager) : PeerCloseInfo :=
  mkPeerCloseInfo (GetStateName (state_ w)) (close_again_ w) (non_graceful_ w)
    (init (stats_ w)) (close (stats_ w)) (nested (stats_ w))
    (deletes (stats_ w)) (stale (stats_ w)) (sweep (stats_ w))
    (gr_timer (stats_ w)).

(** ** The per-path callback of a RIB-In walk *)

(** An attribute object: its identity and its [community()], null when the
    attribute carries no community. *)
Record BgpAttr : Type := mkAttr {
  attr_handle : nat;
  community : option (list Z)
}.

Record BgpPath : Type := mkPath {
  GetAttr : BgpAttr;
  GetPathId : Z;
  GetFlags : Z;
  GetLabel : Z
}.

Inductive DBOperation : Type := DB_ENTRY_ADD_CHANGE | DB_ENTRY_DELETE.

(** The arguments handed to [BgpTable::InputCommon]; [attrs] is [None] for
    a null attribute pointer. *)
Record InputRequest : Type := mkInput {
  oper : DBOperation;
  attrs : option BgpAttr;
  in_path_id : Z;
  in_flags : Z;
  in_label : Z
}.

(** What one invocation of the callback leaves behind: the value returned,
    the path as the callback left it, and the request fed to the table. *)
Record PathOutcome : Type := mkOutcome {
  returned : bool;
  path_after : BgpPath;
  fed : option InputRequest
}.

Section PathCallback.
(** [BgpPath::Stale], [BgpPath::LlgrStale] and [CommunityType::NoLlgr] are
    declared outside the sources; so is [BgpTable::InputCommon], whose return
    value the callback passes on. *)
Variables Stale LlgrStale NoLlgr : Z.
Variable InputCommon : InputRequest -> bool.

(** Modelled from the spec: bgp_path.h is not among the sources; a path is
    stale when the flag is set in its flag word, and the reset clears it. *)
Definition IsStale (path : BgpPath) : bool :=
  negb (Z.land (GetFlags path) Stale =? 0)%Z.
Definition IsLlgrStale (path : BgpPath) : bool :=
  negb (Z.land (GetFlags path) LlgrStale =? 0)%Z.
Definition ResetStale (path : BgpPath) : BgpPath :=
  mkPath (GetAttr path) (GetPathId path) (Z.ldiff (GetFlags path) Stale)
         (GetLabel path).
Definition ResetLlgrStale (path : BgpPath) : BgpPath :=
  mkPath (GetAttr path) (GetPathId path) (Z.ldiff (GetFlags path) LlgrStale)
         (GetLabel path).

(** Modelled from the spec: [Community::ContainsValue] is not among the
    sources; a community carries a value when it is one of its members. *)
Definition ContainsValue (comm : list Z) (value : Z) : bool :=
  existsb (Z.eqb value) comm.

(** The tail of the callback: feed the request to the table input. *)
Definition feed (path : BgpPath) (op : DBOperation) (at_ : option BgpAttr)
  (stale_flag : Z) : PathOutcome :=
  let req := mkInput op at_ (GetPathId path)
                     (Z.lor (GetFlags path) stale_flag) (GetLabel path) in
  mkOutcome (InputCommon req) path (Some req).

(** [root_parent] is [root->parent()]; [None] (a null table) fails the
    assertion. *)
Definition MembershipPathCallback (root_parent : option BgpTable)
  (st : State) (path : BgpPath) : option PathOutcome :=
  match root_parent with
  | None => None
  | Some _ =>
      match st with
      | NONE | GR_TIMER | LLGR_TIMER => Some (mkOutcome false path None)
      | SWEEP =>
          if negb (IsStale path) && negb (IsLlgrStale path)
          then Some (mkOutcome false path None)
          else
            let path := ResetStale path in
            let path := ResetLlgrStale path in
            Some (feed path DB_ENTRY_DELETE None 0)
      | DELETE => Some (feed path DB_ENTRY_DELETE None 0)
      | STALE =>
          if IsStale path
          then Some (mkOutcome false path None)
          else Some (feed path DB_ENTRY_ADD_CHANGE (Some (GetAttr path)) Stale)
      | LLGR_STALE =>
          if match community (GetAttr path) with
             | Some comm => ContainsValue comm NoLlgr
             | None => false
             end
          then Some (feed path DB_ENTRY_DELETE None 0)
          else if IsLlgrStale path
          then Some (mkOutcome false path None)
          else Some (feed path DB_ENTRY_ADD_CHANGE (Some (GetAttr path)) LlgrStale)
      end
  end.
End PathCallback.

(** ** Runs of the manager *)

(** The events that drive the manager, one per entry point. *)
Inductive Handler : Type :=
  | OnClose (non_graceful : bool)
  | OnEORMarkerReceived (family : Family)
  | OnRestartTimer
  | OnSweepTimer
  | OnMembershipRequest
  | OnMembershipRequestCallback.

Definition handle (h : Handler) (e : Env) : M unit :=
  match h with
  | OnClose non_graceful => Close non_graceful e
  | OnEORMarkerReceived family => ProcessEORMarkerReceived family
  | OnRestartTimer => RestartTimerCallback e ;; ret tt
  | OnSweepTimer => ProcessSweepStateActions e ;; ret tt
  | OnMembershipRequest => MembershipRequest e
  | OnMembershipRequestCallback => MembershipRequestCallback e ;; ret tt
  end.

(** A run: handlers invoked one after another, each with the answers its
    collaborators give at that time. *)
Fixpoint run_handlers (hs : list (Handler * Env)) : M unit :=
  match hs with
  | [] => ret tt
  | (h, e) :: rest => handle h e ;; run_handlers rest
  end.

(** The states in which a handler can have returned. *)
Inductive reachable : PeerCloseManager -> Prop :=
  | reachable_new : reachable PeerCloseManager_new
  | reachable_step w h e w' :
      reachable w -> handle h e w = Done tt w' -> reachable w'.

(** The number of [Close] calls in a run. *)
Definition is_close (h : Handler) : bool :=
  match h with OnClose _ => true | _ => false end.
Definition external_closes (hs : list (Handler * Env)) : nat :=
  length (List.filter (fun he => is_close (fst he)) hs).

(** ** Predicates used in the statements *)

(** A postcondition on the outcome of a computation; a failed run (an
    assertion that aborts the program) leaves nothing to observe. *)
Definition post {A} (r : Result A) (Q : A -> PeerCloseManager -> Prop) : Prop :=
  match r with
  | Done a w => Q a w
  | Fail _ => True
  end.

(** Two candidates for the re-entry agree wherever [CloseComplete] can call
    them: in state [NONE] with [close_again_] just cleared. *)
Definition agree_when_idle (rec rec' : M unit) : Prop :=
  forall w, state_ w = NONE -> close_again_ w = false -> rec w = rec' w.

(** Property P1 of the spec, as written there. *)
Definition P1 (w : PeerCloseManager) : Prop :=
  state_ w = NONE <->
  (close_again_ w = false /\ non_graceful_ w = false /\
   gr_elapsed_ w = 0%Z /\ llgr_elapsed_ w = 0%Z /\ families_ w = ∅).

(** What the code maintains between handlers. *)
Definition Inv (w : PeerCloseManager) : Prop :=
  match state_ w with
  | NONE =>
      close_again_ w = false /\ non_graceful_ w = false /\
      gr_elapsed_ w = 0%Z /\ llgr_elapsed_ w = 0%Z
  | GR_TIMER | LLGR_TIMER =>
      close_again_ w = false /\ non_graceful_ w = false
  | STALE | LLGR_STALE =>
      close_again_ w = false -> non_graceful_ w = false
  | SWEEP =>
      gr_elapsed_ w = 0%Z /\ llgr_elapsed_ w = 0%Z /\
      (close_again_ w = false -> non_graceful_ w = false)
  | DELETE => True
  end.

(** The log grows by [l] and nothing else changes. *)
Definition append_calls (l : list Call) (w : PeerCloseManager) : PeerCloseManager :=
  mkPCM (state_ w) (close_again_ w) (non_graceful_ w) (gr_elapsed_ w)
        (llgr_elapsed_ w) (membership_state_ w) (families_ w) (stats_ w)
        (stale_timer_ w) (sweep_timer_ w) (calls w ++ l).

(** *** The states [ProcessClosure] hands to the membership request *)

Definition enter_DELETE (w : PeerCloseManager) : PeerCloseManager :=
  log_call IPeerClose_CustomClose
    (set_stats (inc_deletes (stats_ w)) (set_state DELETE w)).
Definition enter_STALE (w : PeerCloseManager) : PeerCloseManager :=
  log_call IPeerClose_GracefulRestartStale
    (set_stats (inc_stale (stats_ w)) (set_state STALE w)).
Definition enter_SWEEP (w : PeerCloseManager) : PeerCloseManager :=
  set_stats (inc_sweep (stats_ w))
    (set_llgr_elapsed 0 (set_gr_elapsed 0 (set_state SWEEP w))).
Definition enter_LLGR_STALE (w : PeerCloseManager) : PeerCloseManager :=
  set_stats (inc_llgr_stale (stats_ w)) (set_state LLGR_STALE w).

(** *** Concrete collaborators used in the examples *)

(** A manager with no table registered, one with table 7 registered for
    RIB-In only, both without pending work. *)
Definition mgr_no_tables : BgpMembershipManager :=
  mkMgr [] (fun _ => false) (fun _ => true) false.
Definition mgr_one_table : BgpMembershipManager :=
  mkMgr [7] (fun _ => false) (fun _ => true) false.

(** A peer with GR negotiated (120 s), no LLGR (600 s configured), not
    ready, families 1 and 2 under GR; the timer reports 30 000 ms elapsed. *)
Definition env_graceful (mgr : option BgpMembershipManager) : Env :=
  mkEnv true false false 120 600 (fun _ => {[1; 2]}) true mgr 30000.
(** The same peer with LLGR negotiated as well. *)
Definition env_llgr (mgr : option BgpMembershipManager) : Env :=
  mkEnv true true false 120 600 (fun _ => {[1; 2]}) true mgr 30000.

(** A graceful close whose STALE walk is still running. *)
Definition run_stale_walk : list (Handler * Env) :=
  [ (OnClose false, env_graceful (Some mgr_one_table)) ].

(** A graceful close, the STALE walk completing, the GR timer expiring with
    the peer still down, and the DELETE walk completing. *)
Definition run_gr_expiry : list (Handler * Env) :=
  [ (OnClose false, env_graceful (Some mgr_one_table));
    (OnMembershipRequestCallback, env_graceful (Some mgr_one_table));
    (OnRestartTimer, env_graceful (Some mgr_one_table));
    (OnMembershipRequestCallback, env_graceful (Some mgr_one_table)) ].

(** A membership request made while no close is in progress, and its
    completion. *)
Definition run_request_while_idle : list (Handler * Env) :=
  [ (OnMembershipRequest, env_graceful (Some mgr_one_table));
    (OnMembershipRequestCallback, env_graceful (Some mgr_one_table)) ].

(** A manager in state [st] that holds the membership manager, everything
    else as constructed. *)
Definition walking (st : State) : PeerCloseManager :=
  mkPCM st false false 0 0 MEMBERSHIP_IN_USE ∅
        (mkStats 1 0 0 0 0 0 0 0 0) (mkTimer []) (mkTimer []) [].

(** A manager waiting in [GR_TIMER] for the End-of-RIB of families 1 and 2,
    the restart timer running. *)
Definition waiting_for_eor : PeerCloseManager :=
  mkPCM GR_TIMER false false 0 0 MEMBERSHIP_NONE {[1; 2]}
        (mkStats 1 1 0 0 1 0 0 1 0) (mkTimer [120000%Z]) (mkTimer []) [].

(** *** Restart timers *)

(** The delay the walk-done callback computes before it arms the restart
    timer: [int time = configured * 1000; time -= elapsed; if (time < 0)
    time = 0;]. *)
Definition adjusted_delay (configured_s elapsed_ms : Z) : Z :=
  let time := int_wrap (configured_s * 1000) in
  let time := int_wrap (time - elapsed_ms) in
  if (time <? 0)%Z then 0%Z else time.

(** The state in which a [Close] arriving in [GR_TIMER] calls
    [CloseComplete]. *)
Definition nested_in_GR_TIMER (non_graceful : bool) (e : Env)
  (w : PeerCloseManager) : PeerCloseManager :=
  set_gr_elapsed (u32_wrap (gr_elapsed_ w + GetElapsedTime e))
    (set_stats (inc_nested (inc_close (stats_ w)))
       (set_close_again true
          (set_non_graceful (non_graceful_ w || non_graceful) w))).





(** *** The close counter *)

(** A [Close] arriving in a timer state with [close_again_] false restarts
    the cycle at once. *)
Definition restarts_on_close (w : PeerCloseManager) : bool :=
  negb (close_again_ w)
  && (State_eqb (state_ w) GR_TIMER || State_eqb (state_ w) LLGR_TIMER).

(** Scenario 3 of the spec: a graceful close, its STALE walk completing, and
    a second close during the GR wait. *)
Definition run_nested_close : list (Handler * Env) :=
  [ (OnClose false, env_graceful (Some mgr_one_table));
    (OnMembershipRequestCallback, env_graceful (Some mgr_one_table));
    (OnClose false, env_graceful (Some mgr_one_table)) ].

(** A manager whose STALE walk has not been requested yet. *)
Definition stale_before_request : PeerCloseManager :=
  mkPCM STALE false false 0 0 MEMBERSHIP_NONE ∅
        (mkStats 1 1 0 0 1 0 0 0 0) (mkTimer []) (mkTimer [])
        [IPeerClose_GracefulRestartStale].

(** A manager whose STALE walk is running with a close already latched. *)
Definition stale_with_latched_close : PeerCloseManager :=
  mkPCM STALE true false 0 0 MEMBERSHIP_IN_USE ∅
        (mkStats 1 2 1 0 1 0 0 0 0) (mkTimer []) (mkTimer [])
        [IPeerClose_GracefulRestartStale; Mgr_WalkRibIn 7].

(** The state a computation ends in, when it ends. *)
Definition final {A} (r : Result A) : option PeerCloseManager :=
  match r with
  | Done _ w => Some w
  | Fail _ => None
  end.

(** *** Predicates and states used in the further properties *)

(** The operation the loop of [MembershipRequestInternal] issues for one
    table, in state [st]. *)
Definition table_call (mgr : BgpMembershipManager) (st : State)
  (table : BgpTable) : Call :=
  if IsRegistered mgr table then
    if State_eqb st DELETE then Mgr_Unregister table
    else Mgr_UnregisterRibOut table
  else
    if State_eqb st DELETE then Mgr_UnregisterRibIn table
    else Mgr_WalkRibIn table.

(** The peer is registered with the table, fully or for RIB-In only. *)
Definition table_known (mgr : BgpMembershipManager) (table : BgpTable) : bool :=
  IsRegistered mgr table || IsRibInRegistered mgr table.

(** An operation that leaves the RIB-In registration in place. *)
Definition keeps_ribin (c : Call) : bool :=
  match c with
  | Mgr_Unregister _ | Mgr_UnregisterRibIn _ => false
  | _ => true
  end.

(** The state the sweep timer callback leaves when no close is latched. *)
Definition swept (w : PeerCloseManager) : PeerCloseManager :=
  set_stats (inc_init (stats_ w))
    (set_families ∅
       (set_sweep_timer (mkTimer [])
          (set_stale_timer (mkTimer [])
             (set_state NONE (log_call IPeerClose_GracefulRestartSweep w))))).

(** The state in which a [Close] arriving in [LLGR_TIMER] calls
    [CloseComplete]. *)
Definition nested_in_LLGR_TIMER (non_graceful : bool) (e : Env)
  (w : PeerCloseManager) : PeerCloseManager :=
  set_llgr_elapsed (u32_wrap (llgr_elapsed_ w + GetElapsedTime e))
    (set_stats (inc_nested (inc_close (stats_ w)))
       (set_close_again true
          (set_non_graceful (non_graceful_ w || non_graceful) w))).

(** The state a close leaves when it deletes and no table is registered:
    the whole cycle has run within the call. *)
Definition delete_completed (w : PeerCloseManager) : PeerCloseManager :=
  mkPCM NONE false false 0 0 MEMBERSHIP_NONE (families_ w)
        (inc_init (inc_deletes (inc_close (stats_ w))))
        (stale_timer_ w) (sweep_timer_ w)
        (calls w ++ [IPeerClose_CustomClose; IPeerClose_Delete]).

(** The state a graceful close leaves when no table is registered: the
    manager is already waiting in [GR_TIMER]. *)
Definition graceful_waiting (e : Env) (w : PeerCloseManager)
  : PeerCloseManager :=
  mkPCM GR_TIMER false false (gr_elapsed_ w) (llgr_elapsed_ w)
        MEMBERSHIP_NONE (GetGracefulRestartFamilies e (families_ w))
        (inc_gr_timer (inc_stale (inc_close (stats_ w))))
        (mkTimer [adjusted_delay (GetGracefulRestartTime e) (gr_elapsed_ w)])
        (sweep_timer_ w)
        (calls w ++ [IPeerClose_GracefulRestartStale; IPeerClose_CloseComplete]).

(** The state the walk-done callback leaves in [SWEEP]: only the sweep timer
    is armed. *)
Definition sweep_deferred (w : PeerCloseManager) : PeerCloseManager :=
  set_sweep_timer (mkTimer [0%Z]) (set_membership_state MEMBERSHIP_NONE w).

(** Every counter of [s] is at most its value in [s']. *)
Definition stats_le (s s' : Stats) : Prop :=
  init s <= init s' /\ close s <= close s' /\ nested s <= nested s' /\
  deletes s <= deletes s' /\ stale s <= stale s' /\
  llgr_stale s <= llgr_stale s' /\ sweep s <= sweep s' /\
  gr_timer s <= gr_timer s' /\ llgr_timer s <= llgr_timer s'.

(** How the counters of the phases relate: a phase that is running has been
    counted and its successor has not been counted yet. *)
Definition counters_ordered (w : PeerCloseManager) : Prop :=
  let s := stats_ w in
  let running (st : State) := if State_eqb (state_ w) st then 1 else 0 in
  llgr_timer s + running LLGR_STALE <= llgr_stale s /\
  llgr_stale s + running GR_TIMER <= gr_timer s /\
  gr_timer s + running STALE <= stale s /\
  stale s <= close s /\
  nested s <= close s.

(** No timer holds more than one scheduled expiry. *)
Definition timers_single (w : PeerCloseManager) : Prop :=
  length (scheduled (stale_timer_ w)) <= 1 /\
  length (scheduled (sweep_timer_ w)) <= 1.

(** The states in which a membership walk is in progress. *)
Definition walk_state (st : State) : bool :=
  match st with
  | STALE | LLGR_STALE | SWEEP | DELETE => true
  | _ => false
  end.

(** A manager waiting in [LLGR_TIMER], the restart timer running. *)
Definition waiting_in_llgr : PeerCloseManager :=
  mkPCM LLGR_TIMER false false 0 0 MEMBERSHIP_NONE {[1; 2]}
        (mkStats 1 1 0 0 1 1 0 1 1) (mkTimer [600000%Z]) (mkTimer []) [].

(** A manager whose SWEEP walk is over and whose sweep timer is armed. *)
Definition sweeping : PeerCloseManager :=
  mkPCM SWEEP false false 0 0 MEMBERSHIP_NONE ∅
        (mkStats 1 1 0 0 1 0 1 1 0) (mkTimer []) (mkTimer [0%Z]) [].

(** A manager with tables 3 (fully registered) and 7 (RIB-In only). *)
Definition mgr_two_tables : BgpMembershipManager :=
  mkMgr [3; 7] (fun t => Nat.eqb t 3) (fun t => Nat.eqb t 7) false.

(** A peer whose membership manager cannot be used yet. *)
Definition env_not_usable : Env :=
  mkEnv true false false 120 600 (fun _ => {[1; 2]}) false
        (Some mgr_one_table) 30000.

(** * Properties *)

(** ** Proof support *)

(** Symbolic execution of the monadic code: unfold the member functions and
    the monad, compute on the record, split on whatever test is stuck. *)
Ltac run :=
  cbv beta iota zeta delta
    [handle Close RestartTimerCallback ProcessSweepStateActions
     MembershipRequest MembershipRequestCallback
     CloseInternal CloseComplete ProcessClosure MembershipRequestInternal
     MembershipRequestCallbackInternal budget
     CloseInternal_body ProcessClosure_body MembershipRequestInternal_body
     MembershipRequestCallbackInternal_body CloseComplete_body
     IsMembershipPending StartRestartTimer TriggerSweepStateActions
     MOVE_TO_STATE CanUseMembershipManager membership_mgr
     stat call assert bind get modify ret fail post
     set_state set_close_again set_non_graceful set_gr_elapsed
     set_llgr_elapsed set_membership_state set_families set_stats
     set_stale_timer set_sweep_timer log_call Timer_Cancel Timer_Start
     inc_init inc_close inc_nested inc_deletes inc_stale inc_llgr_stale
     inc_sweep inc_gr_timer inc_llgr_timer
     state_ close_again_ non_graceful_ gr_elapsed_ llgr_elapsed_
     membership_state_ families_ stats_ stale_timer_ sweep_timer_ calls
     init close nested deletes stale llgr_stale sweep gr_timer llgr_timer
     scheduled append_calls restarts_on_close is_close
     State_eqb MembershipState_eqb negb orb andb].

Ltac split_on x :=
  lazymatch x with
  | context [match ?y with _ => _ end] => split_on y
  | _ => destruct x
  end.

Ltac split_test :=
  match goal with
  | |- context [match ?x with _ => _ end] => split_on x
  end.

(** The loop over the tables is replaced by its outcome
    ([foreach_table_result] below). *)
Ltac split_loop lem :=
  match goal with
  | |- context [foreach_table ?m ?ts ?w] =>
      let l := fresh "l" in
      destruct (lem m ts w) as [->|[l ->]]
  end.

(** Case analysis on the fields that steer the control flow. *)
Ltac split_world w :=
  let st := fresh "st" in let ca := fresh "ca" in let ms := fresh "ms" in
  destruct w as [st ca ? ? ? ms ? ? ? ? ?]; destruct st, ca, ms.

Lemma post_elim {A} (r : Result A) Q a w :
  post r Q -> r = Done a w -> Q a w.
Proof. intros H ->. exact H. Qed.

Lemma walk_done_guard_true st : walk_done_guard st = true.
Proof. by destruct st. Qed.

Lemma append_calls_log_call c l w :
  append_calls l (log_call c w) = append_calls (c :: l) w.
Proof.
  destruct w; unfold append_calls, log_call; cbn.
  f_equal. by rewrite <- app_assoc.
Qed.

Lemma append_calls_nil w : append_calls [] w = w.
Proof. destruct w; unfold append_calls; cbn. by rewrite app_nil_r. Qed.

(** The loop over the tables only logs calls, unless an assertion fails. *)
Lemma foreach_table_result mgr tables w :
  foreach_table mgr tables w = Fail AssertionFailed \/
  exists l, foreach_table mgr tables w = Done tt (append_calls l w).
Proof.
  revert w. induction tables as [|t ts IH]; intros w.
  - right. exists []. by rewrite append_calls_nil.
  - cbn [foreach_table]. unfold bind, get, assert, call, modify, ret, fail.
    destruct (IsRegistered mgr t); [|destruct (IsRibInRegistered mgr t); [|by left]];
      destruct (State_eqb (state_ w) DELETE);
      match goal with
      | |- context [foreach_table mgr ts (log_call ?c w)] =>
          destruct (IH (log_call c w)) as [H|[l H]]; rewrite H; [by left|];
          right; exists (c :: l); by rewrite append_calls_log_call
      end.
Qed.

Ltac run_cases :=
  run; repeat (first [split_loop foreach_table_result | split_test]; run).

(** The same, rewriting with an agreement [H] between two re-entries as soon
    as the re-entry is reached. *)
Ltac run_cases_with H :=
  unfold agree_when_idle in H;
  run; repeat (first [rewrite H by done | split_test]; run).

(** ** The recursion budget *)

Lemma bind_ext_r {A B} (c : M A) (k k' : A -> M B) w :
  (forall a w', k a w' = k' a w') -> bind c k w = bind c k' w.
Proof. intros H. unfold bind. destruct (c w); auto. Qed.

Lemma bind_ext_l {A B} (c c' : M A) (k : A -> M B) w :
  c w = c' w -> bind c k w = bind c' k w.
Proof. intros H. unfold bind. by rewrite H. Qed.

Lemma CloseComplete_body_agree rec rec' w :
  agree_when_idle rec rec' ->
  CloseComplete_body rec w = CloseComplete_body rec' w.
Proof. intros H. split_world w; run_cases_with H; done. Qed.

(** Walk down two runs that differ only in the re-entry. *)
Ltac agree_with tac :=
  repeat match goal with
    | |- ?x = ?y => constr_eq x y; reflexivity
    | |- bind ?c _ _ = bind ?c' _ _ =>
        first [ constr_eq c c'; apply bind_ext_r; intros ? ?
              | apply bind_ext_l; tac ]
    | |- (match ?x with _ => _ end) _ = _ => destruct x
    | _ => tac
    end.

Lemma MembershipRequestCallbackInternal_body_agree rec rec' e w :
  agree_when_idle rec rec' ->
  MembershipRequestCallbackInternal_body rec e w =
  MembershipRequestCallbackInternal_body rec' e w.
Proof.
  intros H. unfold MembershipRequestCallbackInternal_body.
  agree_with ltac:(apply CloseComplete_body_agree; assumption).
Qed.

Lemma MembershipRequestInternal_body_agree rec rec' e w :
  agree_when_idle rec rec' ->
  MembershipRequestInternal_body rec e w =
  MembershipRequestInternal_body rec' e w.
Proof.
  intros H. unfold MembershipRequestInternal_body.
  agree_with ltac:(apply MembershipRequestCallbackInternal_body_agree;
                   assumption).
Qed.

Lemma ProcessClosure_body_agree rec rec' e w :
  agree_when_idle rec rec' ->
  ProcessClosure_body rec e w = ProcessClosure_body rec' e w.
Proof.
  intros H. unfold ProcessClosure_body.
  agree_with ltac:(apply MembershipRequestInternal_body_agree; assumption).
Qed.

Lemma CloseInternal_body_agree rec rec' e w :
  agree_when_idle rec rec' ->
  CloseInternal_body rec e w = CloseInternal_body rec' e w.
Proof.
  intros H. unfold CloseInternal_body.
  agree_with ltac:(first [ apply ProcessClosure_body_agree; assumption
                         | apply CloseComplete_body_agree; assumption ]).
Qed.

(** From [NONE] the re-entry is never reached: [close_again_] is false
    whenever [ProcessClosure] runs from there. *)
Lemma CloseInternal_body_idle rec rec' e w :
  state_ w = NONE ->
  CloseInternal_body rec e w = CloseInternal_body rec' e w.
Proof.
  intros H. split_world w; try discriminate H; run;
    rewrite ?walk_done_guard_true; run_cases; reflexivity.
Qed.

Lemma CloseInternal_idle n m e :
  agree_when_idle (CloseInternal (S n) e) (CloseInternal (S m) e).
Proof. intros w Hw _. cbn [CloseInternal]. by apply CloseInternal_body_idle. Qed.

(** Any budget of at least two gives the result of [budget]. *)
Lemma CloseInternal_fuel n e w :
  CloseInternal (S (S n)) e w = CloseInternal budget e w.
Proof.
  unfold budget. cbn [CloseInternal].
  apply CloseInternal_body_agree.
  intros w' Hw _. by apply CloseInternal_body_idle.
Qed.

(** ** Symbolic execution of the handlers

    A handler is run with the re-entry [CloseInternal (S n) e] kept
    abstract; what is known about it (a fact [Hrec] about runs from [NONE]
    with [close_again_] cleared) is used when the execution reaches it. *)

Ltac expose_reentry e :=
  unfold handle, Close;
  try change (CloseInternal budget e)
        with (CloseInternal_body (CloseInternal 1 e) e);
  unfold RestartTimerCallback, ProcessSweepStateActions,
    MembershipRequest, MembershipRequestCallback, CloseComplete,
    ProcessClosure, MembershipRequestInternal,
    MembershipRequestCallbackInternal, budget.

Ltac abstract_reentry e lem rec Hrec :=
  expose_reentry e;
  try match goal with
  | |- context [CloseInternal (S ?n) e] =>
      pose proof (lem n e) as Hrec;
      generalize dependent (CloseInternal (S n) e); intros rec Hrec
  end.

Ltac split_rec rec Hrec :=
  match goal with
  | |- context [rec ?X] =>
      let H := fresh "Hre" in
      first [ pose proof (Hrec X eq_refl eq_refl eq_refl) as H
            | pose proof (Hrec X eq_refl eq_refl) as H ];
      destruct (rec X); cbv beta iota delta [post] in H
  end.

Ltac run_handler rec Hrec :=
  run; rewrite ?walk_done_guard_true; run;
  repeat (first [ split_rec rec Hrec
                | split_loop foreach_table_result
                | split_test ]; run).

(** *** No handler exhausts the budget *)

Lemma restart_total n e w :
  state_ w = NONE -> close_again_ w = false ->
  CloseInternal (S n) e w <> Fail OutOfFuel.
Proof.
  intros H1 H2. cbn [CloseInternal].
  split_world w; try discriminate H1; try discriminate H2;
    clear H1 H2; run_cases; discriminate.
Qed.

Lemma handle_total h e w : handle h e w <> Fail OutOfFuel.
Proof.
  destruct h; abstract_reentry e restart_total rec Hrec.
  - split_world w; run_handler rec Hrec; congruence.
  - unfold ProcessEORMarkerReceived. split_world w; run_cases; discriminate.
  - split_world w; run_handler rec Hrec; congruence.
  - split_world w; run_handler rec Hrec; congruence.
  - split_world w; run_handler rec Hrec; congruence.
  - split_world w; run_handler rec Hrec; congruence.
Qed.


(** *** The invariant *)

Lemma Inv_new : Inv PeerCloseManager_new.
Proof. by cbv. Qed.

Lemma restart_Inv n e w :
  state_ w = NONE -> close_again_ w = false ->
  post (CloseInternal (S n) e w) (fun _ w' => Inv w').
Proof.
  intros H1 H2. cbn [CloseInternal].
  split_world w; try discriminate H1; try discriminate H2;
    clear H1 H2; run_cases; try exact I; by cbv.
Qed.

Ltac use_Inv H :=
  unfold Inv in H; cbn in H; destruct_and?;
  repeat match goal with
         | H' : ?x = ?x -> _ |- _ => specialize (H' eq_refl)
         end;
  subst.

Lemma handle_Inv h e w : Inv w -> post (handle h e w) (fun _ w' => Inv w').
Proof.
  intros H. destruct h; abstract_reentry e restart_Inv rec Hrec.
  - split_world w; destruct non_graceful; use_Inv H; run_handler rec Hrec;
      try exact I; try assumption; by cbv.
  - unfold ProcessEORMarkerReceived.
    split_world w; use_Inv H; run_cases; try exact I; by cbv.
  - split_world w; use_Inv H; run_handler rec Hrec;
      try exact I; try assumption; by cbv.
  - split_world w; use_Inv H; run_handler rec Hrec;
      try exact I; try assumption; by cbv.
  - split_world w; use_Inv H; run_handler rec Hrec;
      try exact I; try assumption; by cbv.
  - split_world w; use_Inv H; run_handler rec Hrec;
      try exact I; try assumption; by cbv.
Qed.

Lemma reachable_Inv w : reachable w -> Inv w.
Proof.
  induction 1 as [|w h e w' _ IH Hstep]; [exact Inv_new|].
  exact (post_elim _ _ _ _ (handle_Inv h e w IH) Hstep).
Qed.

(** * The claims *)

(** ** C1: the dispatch of [ProcessClosure] *)

(** Execution of the first statements of [Close], [CloseInternal] and
    [ProcessClosure] only: the calls they end with stay folded. *)
Ltac run_prefix :=
  cbv beta iota zeta delta
    [Close CloseComplete ProcessClosure MembershipRequestInternal
     CloseInternal_body ProcessClosure_body
     MOVE_TO_STATE stat call assert bind get modify ret fail
     enter_DELETE enter_STALE enter_SWEEP enter_LLGR_STALE
     nested_in_GR_TIMER
     set_state set_close_again set_non_graceful set_gr_elapsed
     set_llgr_elapsed set_membership_state set_families set_stats
     set_stale_timer set_sweep_timer log_call
     inc_close inc_nested inc_deletes inc_stale inc_llgr_stale inc_sweep
     state_ close_again_ non_graceful_ gr_elapsed_ llgr_elapsed_
     membership_state_ families_ stats_ stale_timer_ sweep_timer_ calls
     init close nested deletes stale llgr_stale sweep gr_timer llgr_timer
     State_eqb negb orb].



(** ** C2: the per-path callback *)

Lemma ldiff_land_same a b : Z.land (Z.ldiff a b) b = 0%Z.
Proof.
  apply Z.bits_inj'. intros n Hn.
  rewrite Z.land_spec, Z.ldiff_spec, Z.bits_0.
  by destruct (Z.testbit a n), (Z.testbit b n).
Qed.

Lemma ldiff_ldiff_land a b c : Z.land (Z.ldiff (Z.ldiff a b) c) b = 0%Z.
Proof.
  apply Z.bits_inj'. intros n Hn.
  rewrite Z.land_spec, !Z.ldiff_spec, Z.bits_0.
  by destruct (Z.testbit a n), (Z.testbit b n), (Z.testbit c n).
Qed.

(** C2.  The decision table of the per-path callback, for a walk over a
    table [t].  In [NONE], [GR_TIMER] and [LLGR_TIMER] the callback returns
    false and leaves the path alone.  In [STALE] a stale path is left alone,
    any other is fed as ADD_CHANGE with its own attributes and the Stale flag
    merged in.  In [LLGR_STALE] a path with the NO_LLGR community is fed as
    DELETE with null attributes, otherwise an llgr-stale path is left alone,
    otherwise the path is fed as ADD_CHANGE with the LlgrStale flag.  In
    [SWEEP] a path that is neither stale nor llgr-stale is left alone, any
    other has both flags cleared and is fed as DELETE with null attributes.
    In [DELETE] every path is fed as DELETE with null attributes.  Every
    request carries the path's own path id and label, and its flags merged
    with the flag being set. *)
Theorem MembershipPathCallback_table
  (Stale LlgrStale NoLlgr : Z) (InputCommon : InputRequest -> bool)
  (t : BgpTable) (path : BgpPath) :
  let callback :=
    MembershipPathCallback Stale LlgrStale NoLlgr InputCommon (Some t) in
  let request op at_ flags :=
    mkInput op at_ (GetPathId path) flags (GetLabel path) in
  let dispatched p req := Some (mkOutcome (InputCommon req) p (Some req)) in
  let untouched := Some (mkOutcome false path None) in
  let no_llgr :=
    match community (GetAttr path) with
    | Some comm => existsb (Z.eqb NoLlgr) comm
    | None => false
    end in
  let swept :=
    mkPath (GetAttr path) (GetPathId path)
           (Z.ldiff (Z.ldiff (GetFlags path) Stale) LlgrStale) (GetLabel path) in
  callback NONE path = untouched
  /\ callback GR_TIMER path = untouched
  /\ callback LLGR_TIMER path = untouched
  /\ (IsStale Stale path = true -> callback STALE path = untouched)
  /\ (IsStale Stale path = false ->
      callback STALE path =
      dispatched path (request DB_ENTRY_ADD_CHANGE (Some (GetAttr path))
                               (Z.lor (GetFlags path) Stale)))
  /\ (no_llgr = true ->
      callback LLGR_STALE path =
      dispatched path (request DB_ENTRY_DELETE None (Z.lor (GetFlags path) 0)))
  /\ (no_llgr = false -> IsLlgrStale LlgrStale path = true ->
      callback LLGR_STALE path = untouched)
  /\ (no_llgr = false -> IsLlgrStale LlgrStale path = false ->
      callback LLGR_STALE path =
      dispatched path (request DB_ENTRY_ADD_CHANGE (Some (GetAttr path))
                               (Z.lor (GetFlags path) LlgrStale)))
  /\ (IsStale Stale path = false -> IsLlgrStale LlgrStale path = false ->
      callback SWEEP path = untouched)
  /\ (IsStale Stale path || IsLlgrStale LlgrStale path = true ->
      callback SWEEP path =
      dispatched swept (request DB_ENTRY_DELETE None (Z.lor (GetFlags swept) 0))
      /\ IsStale Stale swept = false /\ IsLlgrStale LlgrStale swept = false)
  /\ callback DELETE path =
     dispatched path (request DB_ENTRY_DELETE None (Z.lor (GetFlags path) 0))
  /\ (forall st out req,
        callback st path = Some out -> fed out = Some req ->
        in_path_id req = GetPathId path /\ in_label req = GetLabel path).
Proof.
  cbv zeta. unfold MembershipPathCallback, feed, ContainsValue.
  repeat match goal with |- _ /\ _ => split end; try reflexivity.
  - by intros ->.
  - by intros ->.
  - by intros ->.
  - by intros -> ->.
  - by intros -> ->.
  - by intros -> ->.
  - intros H. split; [|split].
    + destruct (IsStale Stale path), (IsLlgrStale LlgrStale path);
        by try discriminate H.
    + unfold IsStale. cbn [GetFlags]. by rewrite ldiff_ldiff_land.
    + unfold IsLlgrStale. cbn [GetFlags]. by rewrite ldiff_land_same.
  - intros st out req Hout Hfed.
    destruct st; repeat case_match; simplify_eq; cbn in Hfed; by simplify_eq.
Qed.

(** The table at a path that is stale but not llgr-stale, with the flag
    bits 4 and 256 and NO_LLGR 0xFFFF0007 (as in RFC 9494). *)
Lemma MembershipPathCallback_table_witness :
  MembershipPathCallback 4 256 4294901767 (fun _ => true) (Some 7%nat) SWEEP
    (mkPath (mkAttr 1 (Some [1%Z])) 5 4 16) =
  Some (mkOutcome true (mkPath (mkAttr 1 (Some [1%Z])) 5 0 16)
          (Some (mkInput DB_ENTRY_DELETE None 5 0 16)))
  /\ MembershipPathCallback 4 256 4294901767 (fun _ => true) (Some 7%nat) STALE
       (mkPath (mkAttr 1 (Some [1%Z])) 5 4 16) =
     Some (mkOutcome false (mkPath (mkAttr 1 (Some [1%Z])) 5 4 16) None).
Proof.
  pose proof (MembershipPathCallback_table 4 256 4294901767 (fun _ => true) 7%nat
                (mkPath (mkAttr 1 (Some [1%Z])) 5 4 16)) as H.
  cbv zeta in H.
  destruct H as (_ & _ & _ & Hstale & _ & _ & _ & _ & _ & Hsweep & _).
  split.
  - exact (proj1 (Hsweep eq_refl)).
  - exact (Hstale eq_refl).
Defined.

(** ** C3: what holds in state [NONE] *)

Lemma run_handlers_reachable hs w w' :
  reachable w -> run_handlers hs w = Done tt w' -> reachable w'.
Proof.
  revert w. induction hs as [|[h e] hs IH]; intros w Hw Hrun.
  - cbn in Hrun. unfold ret in Hrun. by simplify_eq.
  - cbn [run_handlers] in Hrun. unfold bind in Hrun.
    destruct (handle h e w) as [[] w1|] eqn:Hstep; [|done].
    eapply IH; [|exact Hrun]. by eapply reachable_step.
Qed.

(** C3, as amended.  After every handler returns, [state_ == NONE] implies
    that [close_again_] and [non_graceful_] are false and both elapsed times
    are zero; in particular the transition from [DELETE] into [NONE] at the
    end of the walk-done callback resets these four. *)
Theorem reachable_NONE_is_reset :
  (forall w, reachable w -> state_ w = NONE ->
     close_again_ w = false /\ non_graceful_ w = false /\
     gr_elapsed_ w = 0%Z /\ llgr_elapsed_ w = 0%Z)
  /\ (forall fuel e w w',
        state_ w = DELETE ->
        MembershipRequestCallbackInternal fuel e w = Done true w' ->
        state_ w' = NONE /\ close_again_ w' = false /\
        non_graceful_ w' = false /\ gr_elapsed_ w' = 0%Z /\
        llgr_elapsed_ w' = 0%Z).
Proof.
  split.
  - intros w Hr Hs. pose proof (reachable_Inv w Hr) as H.
    unfold Inv in H. by rewrite Hs in H.
  - intros fuel e w w' Hs. unfold MembershipRequestCallbackInternal.
    generalize (CloseInternal fuel e). intros rec.
    destruct w as [st ca ? ? ? ms ? ? ? ? ?]. cbn in Hs. subst st.
    destruct ca, ms; run; rewrite ?walk_done_guard_true; run;
      repeat (split_test; run); intros H; by simplify_eq.
Qed.

(** The theorem at the end of [run_gr_expiry], where the manager is back in
    [NONE] after a DELETE walk. *)
Lemma reachable_NONE_is_reset_witness :
  (exists w,
     final (run_handlers run_gr_expiry PeerCloseManager_new) = Some w /\
     state_ w = NONE /\
     close_again_ w = false /\ non_graceful_ w = false /\
     gr_elapsed_ w = 0%Z /\ llgr_elapsed_ w = 0%Z)
  /\ (exists w',
        MembershipRequestCallbackInternal budget
          (env_graceful (Some mgr_no_tables)) (walking DELETE) = Done true w' /\
        state_ w' = NONE /\ close_again_ w' = false /\
        non_graceful_ w' = false /\ gr_elapsed_ w' = 0%Z /\
        llgr_elapsed_ w' = 0%Z).
Proof.
  split.
  - eexists. split; [vm_compute; reflexivity|]. split; [reflexivity|].
    apply (proj1 reachable_NONE_is_reset); [|reflexivity].
    apply (run_handlers_reachable run_gr_expiry PeerCloseManager_new);
      [exact reachable_new | vm_compute; reflexivity].
  - eexists. split; [vm_compute; reflexivity|].
    apply (proj2 reachable_NONE_is_reset budget
             (env_graceful (Some mgr_no_tables)) (walking DELETE));
      [reflexivity | vm_compute; reflexivity].
Defined.

(** C3 as stated fails in both directions.  While the STALE walk of a
    graceful close runs, every conjunct on the right of P1 holds and the
    state is not [NONE]; and after a GR expiry the manager is back in [NONE]
    with the GR families still in [families_], which the [DELETE] branch of
    the walk-done callback does not clear. *)
Lemma P1_counterexample :
  (exists w, reachable w /\ state_ w = STALE /\ ~ P1 w)
  /\ (exists w, reachable w /\ state_ w = NONE /\ families_ w <> ∅ /\ ~ P1 w).
Proof.
  split.
  - eexists. split; [|split].
    + apply (run_handlers_reachable run_stale_walk PeerCloseManager_new);
        [exact reachable_new | vm_compute; reflexivity].
    + reflexivity.
    + intros [_ H]. by specialize (H (conj eq_refl (conj eq_refl
                       (conj eq_refl (conj eq_refl eq_refl))))).
  - eexists. split; [|split; [|split]].
    + apply (run_handlers_reachable run_gr_expiry PeerCloseManager_new);
        [exact reachable_new | vm_compute; reflexivity].
    + reflexivity.
    + vm_compute. discriminate.
    + intros [H _]. specialize (H eq_refl).
      destruct H as (_ & _ & _ & _ & H). revert H. vm_compute. discriminate.
Qed.

(** ** C4: the guard of the walk-done callback *)

(** C4 (the code departs from it).  The first assertion of the walk-done
    callback holds in every state, because [LLGR_STALE] stands in it as a
    bare non-zero value: entered in [NONE], [GR_TIMER] or [LLGR_TIMER] while
    the membership manager is held, the callback does not abort; it releases
    the membership manager, starts the sweep timer and returns true. *)
Theorem walk_done_guard_accepts_idle_states :
  (forall st, walk_done_guard st = true)
  /\ Forall
       (fun st =>
          MembershipRequestCallback (env_graceful (Some mgr_no_tables))
            (walking st) =
          Done true (set_sweep_timer (mkTimer [0%Z])
                       (set_membership_state MEMBERSHIP_NONE (walking st))))
       [NONE; GR_TIMER; LLGR_TIMER]
  /\ (exists w,
        run_handlers run_request_while_idle PeerCloseManager_new = Done tt w /\
        state_ w = NONE /\ membership_state_ w = MEMBERSHIP_NONE /\
        scheduled (sweep_timer_ w) = [0%Z]).
Proof.
  split; [by intros []|]. split.
  - repeat constructor.
  - eexists. split; [vm_compute; reflexivity|]. by repeat split.
Qed.

(** ** C5: End-of-RIB markers *)

Lemma set_families_same w : set_families (families_ w) w = w.
Proof. by destruct w. Qed.

(** C5.  An End-of-RIB marker changes the manager only in [GR_TIMER] or
    [LLGR_TIMER] with a non-empty [families_]: [UNSPEC] clears the set, any
    other family is removed from it, and exactly when the set has become
    empty the restart timer is cancelled and started with delay 0.  In any
    other state, or with [families_] already empty, nothing changes; and a
    second marker for the same family changes nothing more. *)
Theorem ProcessEORMarkerReceived_spec (family : Family) (w : PeerCloseManager) :
  let waiting := state_ w = GR_TIMER \/ state_ w = LLGR_TIMER in
  let remaining : gset Family :=
    if Nat.eqb family UNSPEC then ∅ else families_ w ∖ {[family]} in
  (~ waiting \/ families_ w = ∅ ->
   ProcessEORMarkerReceived family w = Done tt w)
  /\ (waiting -> families_ w <> ∅ -> remaining <> ∅ ->
      ProcessEORMarkerReceived family w = Done tt (set_families remaining w))
  /\ (waiting -> families_ w <> ∅ -> remaining = ∅ ->
      ProcessEORMarkerReceived family w =
      Done tt (set_stale_timer (mkTimer [0%Z]) (set_families ∅ w)))
  /\ (exists w1,
        ProcessEORMarkerReceived family w = Done tt w1 /\
        ProcessEORMarkerReceived family w1 = Done tt w1).
Proof.
  cbv zeta.
  assert (Hidle : forall w0 : PeerCloseManager,
             ~ (state_ w0 = GR_TIMER \/ state_ w0 = LLGR_TIMER) \/
             families_ w0 = ∅ ->
             ProcessEORMarkerReceived family w0 = Done tt w0).
  { intros [st ? ? ? ? ? fams ? ? ? ?]. cbn [state_ families_].
    unfold ProcessEORMarkerReceived. run.
    intros [H| ->].
    - destruct st; try reflexivity; exfalso; apply H; auto.
    - rewrite bool_decide_eq_true_2 by done. by destruct st. }
  assert (Hrem : forall w0 : PeerCloseManager,
             state_ w0 = GR_TIMER \/ state_ w0 = LLGR_TIMER ->
             families_ w0 <> ∅ ->
             ProcessEORMarkerReceived family w0 =
             let remaining : gset Family :=
               if Nat.eqb family UNSPEC then ∅ else families_ w0 ∖ {[family]} in
             if bool_decide (remaining = ∅)
             then Done tt (set_stale_timer (mkTimer [0%Z]) (set_families ∅ w0))
             else Done tt (set_families remaining w0)).
  { intros [st ? ? ? ? ? fams ? ? ? ?]. cbn [state_ families_].
    intros Hst Hne. unfold ProcessEORMarkerReceived. run.
    rewrite (bool_decide_eq_false_2 (fams = ∅)) by done.
    destruct Hst as [-> | ->]; run;
      destruct (Nat.eqb family UNSPEC); run.
    all: try (rewrite bool_decide_eq_true_2 by done; reflexivity).
    all: case_bool_decide as Hr; [by rewrite Hr|reflexivity]. }
  split; [exact (Hidle w)|].
  split; [|split].
  - intros Hst Hne Hr. rewrite Hrem by done. cbv zeta.
    by rewrite bool_decide_eq_false_2.
  - intros Hst Hne Hr. rewrite Hrem by done. cbv zeta.
    by rewrite bool_decide_eq_true_2.
  - destruct (decide (state_ w = GR_TIMER \/ state_ w = LLGR_TIMER)) as [Hst|Hst];
      [|exists w; split; apply Hidle; by left].
    destruct (decide (families_ w = ∅)) as [He|Hne];
      [exists w; split; apply Hidle; by right|].
    rewrite Hrem by done. cbv zeta. case_bool_decide as Hr.
    + eexists. split; [reflexivity|]. apply Hidle. right. by destruct w.
    + eexists. split; [reflexivity|].
      set (w1 := set_families _ w).
      assert (Hst1 : state_ w1 = GR_TIMER \/ state_ w1 = LLGR_TIMER) by (by destruct w).
      assert (Hf1 : families_ w1 =
                    if Nat.eqb family UNSPEC then ∅ else families_ w ∖ {[family]})
        by (by destruct w).
      rewrite Hrem; [|done|by rewrite Hf1]. cbv zeta.
      assert (Hsame : (if Nat.eqb family UNSPEC then ∅
                       else families_ w1 ∖ {[family]}) = families_ w1).
      { rewrite Hf1. destruct (Nat.eqb family UNSPEC); [done|]. apply difference_twice_L. }
      rewrite Hsame. rewrite bool_decide_eq_false_2 by (by rewrite Hf1).
      by rewrite set_families_same.
Qed.

(** Scenario 6 of the spec: with families 1 and 2 awaited, the marker for
    family 1 leaves family 2, and [UNSPEC] then clears the set and re-arms
    the timer at 0. *)
Lemma ProcessEORMarkerReceived_spec_witness :
  ProcessEORMarkerReceived 1 waiting_for_eor =
  Done tt (set_families ({[1; 2]} ∖ {[1]}) waiting_for_eor)
  /\ ProcessEORMarkerReceived UNSPEC waiting_for_eor =
     Done tt (set_stale_timer (mkTimer [0%Z]) (set_families ∅ waiting_for_eor))
  /\ ProcessEORMarkerReceived 1 PeerCloseManager_new =
     Done tt PeerCloseManager_new.
Proof.
  split; [|split].
  - apply (proj1 (proj2 (ProcessEORMarkerReceived_spec 1 waiting_for_eor))).
    + left; reflexivity.
    + vm_compute; discriminate.
    + vm_compute; discriminate.
  - apply (proj1 (proj2 (proj2
             (ProcessEORMarkerReceived_spec UNSPEC waiting_for_eor)))).
    + left; reflexivity.
    + vm_compute; discriminate.
    + reflexivity.
  - apply (proj1 (ProcessEORMarkerReceived_spec 1 PeerCloseManager_new)).
    right; reflexivity.
Defined.

(** ** C6: a close arriving during the GR wait *)





(** Scenario 3 from the constructor on: close, STALE walk done, close again
    during the GR wait, STALE walk done again.  The manager is back in
    [GR_TIMER] with one expiry scheduled at 90 000 ms. *)
Example scenario_nested_close_rearms_at_90000 :
  exists w,
    run_handlers
      (run_nested_close ++
       [(OnMembershipRequestCallback, env_graceful (Some mgr_one_table))])
      PeerCloseManager_new = Done tt w /\
    state_ w = GR_TIMER /\ gr_elapsed_ w = 30000%Z /\
    scheduled (stale_timer_ w) = [90000%Z] /\
    nested (stats_ w) = 1.
Proof. eexists. split; [vm_compute; reflexivity|]. by repeat split. Qed.

(** ** C7: the double arming of the LLGR timer *)



(** ** C8: the close counter *)

Ltac count_done := cbn in *; first [exact I | lia].

Lemma restart_close n e w :
  state_ w = NONE -> close_again_ w = false ->
  post (CloseInternal (S n) e w)
       (fun _ w' => close (stats_ w') = S (close (stats_ w))).
Proof.
  intros H1 H2. cbn [CloseInternal].
  split_world w; try discriminate H1; try discriminate H2;
    clear H1 H2; run_cases; count_done.
Qed.

Lemma Close_close non_graceful e w :
  post (Close non_graceful e w)
       (fun _ w' => close (stats_ w') =
                    close (stats_ w) + (if restarts_on_close w then 2 else 1)).
Proof.
  abstract_reentry e restart_close rec Hrec.
  split_world w; run_handler rec Hrec; count_done.
Qed.

Lemma CloseComplete_close e w :
  post (CloseComplete budget e w)
       (fun _ w' => close (stats_ w') =
                    close (stats_ w) + (if close_again_ w then 1 else 0)).
Proof.
  abstract_reentry e restart_close rec Hrec.
  split_world w; run_handler rec Hrec; count_done.
Qed.

Lemma handle_close h e w :
  post (handle h e w)
       (fun _ w' => close (stats_ w) + (if is_close h then 1 else 0)
                    <= close (stats_ w')).
Proof.
  destruct h; abstract_reentry e restart_close rec Hrec.
  - split_world w; run_handler rec Hrec; count_done.
  - unfold ProcessEORMarkerReceived. split_world w; run_cases; count_done.
  - split_world w; run_handler rec Hrec; count_done.
  - split_world w; run_handler rec Hrec; count_done.
  - split_world w; run_handler rec Hrec; count_done.
  - split_world w; run_handler rec Hrec; count_done.
Qed.

(** C8, as amended.  The close counter counts the invocations of
    [CloseInternal]: a [Close] adds one, or two when it arrives in
    [GR_TIMER] or [LLGR_TIMER] with [close_again_] false and so restarts the
    cycle at once; [CloseComplete] adds one when it finds [close_again_] set
    and re-enters [CloseInternal], and nothing otherwise.  Over any run the
    counter grows by at least the number of [Close] calls. *)
Theorem close_counts_CloseInternal :
  (forall non_graceful e w w',
     Close non_graceful e w = Done tt w' ->
     close (stats_ w') =
     close (stats_ w) + (if restarts_on_close w then 2 else 1))
  /\ (forall e w w',
        CloseComplete budget e w = Done tt w' ->
        close (stats_ w') =
        close (stats_ w) + (if close_again_ w then 1 else 0))
  /\ (forall hs w w',
        run_handlers hs w = Done tt w' ->
        close (stats_ w) + external_closes hs <= close (stats_ w')).
Proof.
  split; [|split].
  - intros b e w w' H. exact (post_elim _ _ _ _ (Close_close b e w) H).
  - intros e w w' H. exact (post_elim _ _ _ _ (CloseComplete_close e w) H).
  - induction hs as [|[h e] hs IH]; intros w w' Hrun.
    + cbn in Hrun. unfold ret in Hrun. simplify_eq. cbn. lia.
    + cbn [run_handlers] in Hrun. unfold bind in Hrun.
      destruct (handle h e w) as [[] w1|] eqn:Hstep; [|done].
      pose proof (post_elim _ _ _ _ (handle_close h e w) Hstep) as H1.
      specialize (IH _ _ Hrun). cbn in H1.
      unfold external_closes in *. cbn [List.filter fst].
      destruct (is_close h); cbn [length]; lia.
Qed.

(** The second close of scenario 3 arrives in [GR_TIMER] and raises the
    counter from 1 to 3. *)
Lemma close_counts_CloseInternal_witness :
  exists w',
    Close false (env_graceful (Some mgr_one_table)) waiting_for_eor = Done tt w'
    /\ close (stats_ w') = 3.
Proof.
  eexists. split; [vm_compute; reflexivity|].
  apply (proj1 close_counts_CloseInternal false
           (env_graceful (Some mgr_one_table)) waiting_for_eor).
  vm_compute; reflexivity.
Defined.

(** C8 as stated fails: after the two [Close] calls of scenario 3 the
    counter is 3. *)
Lemma close_counter_counterexample :
  exists w,
    run_handlers run_nested_close PeerCloseManager_new = Done tt w /\
    external_closes run_nested_close = 2 /\
    close (stats_ w) = 3 /\
    close (stats_ w) <> external_closes run_nested_close.
Proof.
  eexists. split; [vm_compute; reflexivity|].
  split; [reflexivity|]. split; [reflexivity|]. vm_compute. discriminate.
Qed.

(** ** C9: a null membership manager *)

(** C9, as amended.  When the membership manager may be used but its handle
    is null, the request marks the membership phase [MEMBERSHIP_IN_USE] and
    returns: no table operation is issued, the walk-done callback is not
    run, and neither the state nor anything else changes. *)
Theorem MembershipRequestInternal_null_manager (fuel : nat) (e : Env)
  (w : PeerCloseManager) :
  membership_state_ w <> MEMBERSHIP_IN_USE ->
  CanUseMembershipManager e = true ->
  membership_mgr e = None ->
  MembershipRequestInternal fuel e w =
  Done tt (set_membership_state MEMBERSHIP_IN_USE w).
Proof.
  intros Hm Hc Hn. unfold MembershipRequestInternal.
  generalize (CloseInternal fuel e). intros rec.
  unfold CanUseMembershipManager, membership_mgr in *.
  destruct w as [? ? ? ? ? ms ? ? ? ? ?]. cbn in Hm.
  destruct ms; try done; run; rewrite Hc; run; rewrite Hn; reflexivity.
Qed.

(** A STALE walk requested from a peer whose manager handle is null. *)
Lemma MembershipRequestInternal_null_manager_witness :
  MembershipRequestInternal budget (env_graceful None) stale_before_request =
  Done tt (set_membership_state MEMBERSHIP_IN_USE stale_before_request).
Proof.
  apply (MembershipRequestInternal_null_manager budget (env_graceful None)
           stale_before_request); [vm_compute; discriminate | reflexivity..].
Defined.

(** C9 as stated fails: with a null handle the manager stays in [STALE]
    holding [MEMBERSHIP_IN_USE], whereas with an empty table set the
    walk-done callback runs inline, releases the membership phase and moves
    on to [GR_TIMER]. *)
Lemma null_manager_counterexample :
  (exists w1,
     MembershipRequestInternal budget (env_graceful None)
       stale_before_request = Done tt w1 /\
     state_ w1 = STALE /\ membership_state_ w1 = MEMBERSHIP_IN_USE /\
     calls w1 = calls stale_before_request)
  /\ (exists w2,
        MembershipRequestInternal budget (env_graceful (Some mgr_no_tables))
          stale_before_request = Done tt w2 /\
        state_ w2 = GR_TIMER /\ membership_state_ w2 = MEMBERSHIP_NONE)
  /\ MembershipRequestInternal budget (env_graceful None)
       stale_before_request <>
     MembershipRequestInternal budget (env_graceful (Some mgr_no_tables))
       stale_before_request.
Proof.
  split; [|split].
  - eexists. split; [vm_compute; reflexivity|]. by repeat split.
  - eexists. split; [vm_compute; reflexivity|]. by repeat split.
  - vm_compute. discriminate.
Qed.

(** The walk-done callback cannot run at all with a null handle: it asks
    the manager whether work is pending. *)
Lemma walk_done_needs_manager :
  MembershipRequestCallbackInternal budget (env_graceful None)
    (set_membership_state MEMBERSHIP_IN_USE stale_before_request) =
  Fail NullDereference.
Proof. reflexivity. Qed.

(** ** C10: the sticky non-graceful flag *)





(** * Further properties of the code *)

(** The whitelist of [run], extended with the predicates above. *)
Ltac run_more :=
  cbv beta iota zeta delta
    [swept nested_in_LLGR_TIMER table_call table_known walk_state
     enter_DELETE enter_STALE enter_SWEEP enter_LLGR_STALE];
  run.

(** ** The re-entry from [CloseComplete] *)

(** X1.  [CloseComplete] re-enters [CloseInternal] at most once while a
    handler runs: the budget of two nested calls is never exhausted, and a
    larger budget gives the same result. *)
Theorem reentry_is_bounded :
  (forall n e w, CloseInternal (S (S n)) e w = CloseInternal budget e w)
  /\ (forall h e w, handle h e w <> Fail OutOfFuel).
Proof. split; [exact CloseInternal_fuel | exact handle_total]. Qed.

(** ** Phase entry from the LLGR wait, and from the walk states *)



(** ** The sweep timer callback *)

(** X3.  The sweep timer callback fails its assertion unless the state is
    [SWEEP].  In [SWEEP] with no close latched it notifies the peer and
    completes the cycle: the manager is in [NONE] with both timers
    cancelled, [families_] empty and [init] counted.  Whenever it returns,
    it returns false, so the timer is not restarted. *)
Theorem ProcessSweepStateActions_outcomes (e : Env) (w : PeerCloseManager) :
  (state_ w <> SWEEP -> ProcessSweepStateActions e w = Fail AssertionFailed)
  /\ (state_ w = SWEEP -> close_again_ w = false ->
      ProcessSweepStateActions e w = Done false (swept w))
  /\ (forall r w', ProcessSweepStateActions e w = Done r w' -> r = false).
Proof.
  destruct w as [st ca ng gr llgr ms fams sts t1 t2 cs]; cbn [state_ close_again_].
  repeat match goal with |- _ /\ _ => split end.
  - intros H. destruct st; try reflexivity. by destruct H.
  - intros -> ->. run_more. reflexivity.
  - intros r w'. abstract_reentry e restart_total rec Hrec.
    destruct st, ca; run_handler rec Hrec; intros H; by simplify_eq.
Qed.

Lemma ProcessSweepStateActions_outcomes_witness :
  ProcessSweepStateActions (env_graceful (Some mgr_one_table)) sweeping =
  Done false (swept sweeping)
  /\ ProcessSweepStateActions (env_graceful (Some mgr_one_table))
       waiting_for_eor = Fail AssertionFailed.
Proof.
  split.
  - exact (proj1 (proj2 (ProcessSweepStateActions_outcomes
             (env_graceful (Some mgr_one_table)) sweeping)) eq_refl eq_refl).
  - apply (proj1 (ProcessSweepStateActions_outcomes
             (env_graceful (Some mgr_one_table)) waiting_for_eor)).
    vm_compute; discriminate.
Defined.

(** ** The membership gate *)

(** X4.  A membership request made while the manager holds the membership
    manager fails its assertion.  One made while the membership manager
    cannot be used only parks in [MEMBERSHIP_IN_WAIT]; and a parked request
    is transparent: retriggering it later gives exactly what the later
    request alone gives. *)
Theorem MembershipRequest_parking (e1 e2 : Env) (w : PeerCloseManager) :
  (membership_state_ w = MEMBERSHIP_IN_USE ->
   MembershipRequest e2 w = Fail AssertionFailed)
  /\ (membership_state_ w <> MEMBERSHIP_IN_USE ->
      CanUseMembershipManager e1 = false ->
      MembershipRequest e1 w =
      Done tt (set_membership_state MEMBERSHIP_IN_WAIT w)
      /\ (MembershipRequest e1 ;; MembershipRequest e2) w =
         MembershipRequest e2 w).
Proof.
  unfold CanUseMembershipManager.
  destruct w as [st ca ng gr llgr ms fams sts t1 t2 cs]; cbn [membership_state_].
  split.
  - intros ->. reflexivity.
  - intros Hm Hc.
    assert (Hpark : MembershipRequest e1
                      (mkPCM st ca ng gr llgr ms fams sts t1 t2 cs) =
                    Done tt (mkPCM st ca ng gr llgr MEMBERSHIP_IN_WAIT
                               fams sts t1 t2 cs)).
    { destruct ms; try done; run; rewrite Hc; reflexivity. }
    split; [exact Hpark|].
    unfold bind at 1. rewrite Hpark.
    destruct ms; [ | exfalso; by apply Hm | ];
      destruct (peer_CanUseMembershipManager e2) eqn:Hc2;
      cbv beta iota zeta delta
        [MembershipRequest MembershipRequestInternal
         MembershipRequestInternal_body CanUseMembershipManager
         bind get assert modify ret fail negb MembershipState_eqb
         set_membership_state state_ close_again_ non_graceful_ gr_elapsed_
         llgr_elapsed_ membership_state_ families_ stats_ stale_timer_
         sweep_timer_ calls];
      rewrite Hc2; reflexivity.
Qed.

Lemma MembershipRequest_parking_witness :
  MembershipRequest env_not_usable stale_before_request =
  Done tt (set_membership_state MEMBERSHIP_IN_WAIT stale_before_request)
  /\ (MembershipRequest env_not_usable ;;
      MembershipRequest (env_graceful (Some mgr_one_table)))
       stale_before_request =
     MembershipRequest (env_graceful (Some mgr_one_table)) stale_before_request.
Proof.
  apply (proj2 (MembershipRequest_parking env_not_usable
                  (env_graceful (Some mgr_one_table)) stale_before_request));
    [vm_compute; discriminate | reflexivity].
Defined.

(** ** The operations issued for the registered tables *)

Lemma state_log_call c w : state_ (log_call c w) = state_ w.
Proof. by destruct w. Qed.

Lemma foreach_table_calls mgr tables w :
  forallb (table_known mgr) tables = true ->
  foreach_table mgr tables w =
  Done tt (append_calls (map (table_call mgr (state_ w)) tables) w).
Proof.
  revert w. induction tables as [|t ts IH]; intros w Hk.
  - cbn. by rewrite append_calls_nil.
  - cbn [forallb] in Hk. apply andb_prop in Hk as [Ht Hts].
    cbn [foreach_table map]. unfold table_known in Ht.
    unfold bind, get, assert, call, modify, ret, fail.
    destruct (IsRegistered mgr t) eqn:Hr; [|cbn in Ht; rewrite Ht];
      destruct (State_eqb (state_ w) DELETE) eqn:Hd;
      rewrite IH by done; rewrite append_calls_log_call, state_log_call;
      unfold table_call at 2; by rewrite Hr, Hd.
Qed.

Lemma foreach_table_unknown mgr tables w :
  forallb (table_known mgr) tables = false ->
  foreach_table mgr tables w = Fail AssertionFailed.
Proof.
  revert w. induction tables as [|t ts IH]; intros w Hk; [done|].
  cbn [forallb] in Hk. cbn [foreach_table].
  unfold bind, get, assert, call, modify, ret, fail.
  unfold table_known in Hk.
  destruct (IsRegistered mgr t); cbn in Hk.
  - destruct (State_eqb (state_ w) DELETE); by rewrite IH.
  - destruct (IsRibInRegistered mgr t); cbn in Hk; [|done].
    destruct (State_eqb (state_ w) DELETE); by rewrite IH.
Qed.

Lemma table_call_keeps_ribin mgr st t :
  st <> DELETE -> keeps_ribin (table_call mgr st t) = true.
Proof.
  intros H. unfold table_call.
  destruct (IsRegistered mgr t), st; done.
Qed.

(** X5.  With a usable membership manager and a non-empty list of tables
    the peer is registered with, a membership request issues exactly one
    operation per table, in the order of the list, marks the membership
    phase in use and changes nothing else; outside [DELETE] none of these
    operations drops the RIB-In registration.  If the peer is neither
    registered nor RIB-In registered with one of the tables, the request
    fails its assertion. *)
Theorem MembershipRequestInternal_table_calls (fuel : nat) (e : Env)
  (mgr : BgpMembershipManager) (w : PeerCloseManager) :
  membership_state_ w <> MEMBERSHIP_IN_USE ->
  CanUseMembershipManager e = true ->
  membership_mgr e = Some mgr ->
  GetRegisteredRibs mgr <> [] ->
  (forallb (table_known mgr) (GetRegisteredRibs mgr) = true ->
   MembershipRequestInternal fuel e w =
   Done tt (append_calls
              (map (table_call mgr (state_ w)) (GetRegisteredRibs mgr))
              (set_membership_state MEMBERSHIP_IN_USE w))
   /\ (state_ w <> DELETE ->
       forallb keeps_ribin
         (map (table_call mgr (state_ w)) (GetRegisteredRibs mgr)) = true))
  /\ (forallb (table_known mgr) (GetRegisteredRibs mgr) = false ->
      MembershipRequestInternal fuel e w = Fail AssertionFailed).
Proof.
  unfold CanUseMembershipManager, membership_mgr.
  intros Hm Hc Hmgr Hne.
  assert (Hrun : MembershipRequestInternal fuel e w =
                 foreach_table mgr (GetRegisteredRibs mgr)
                   (set_membership_state MEMBERSHIP_IN_USE w)).
  { unfold MembershipRequestInternal. generalize (CloseInternal fuel e).
    intros rec. destruct w as [st ca ng gr llgr ms fams sts t1 t2 cs].
    cbn in Hm. destruct ms; try done; run; rewrite Hc; run; rewrite Hmgr;
      destruct (GetRegisteredRibs mgr); done. }
  split.
  - intros Hk. split.
    + rewrite Hrun, foreach_table_calls by done. by destruct w.
    + intros Hs. apply forallb_forall. intros c Hin.
      apply in_map_iff in Hin as (t & <- & _).
      by apply table_call_keeps_ribin.
  - intros Hk. by rewrite Hrun, foreach_table_unknown.
Qed.

Lemma MembershipRequestInternal_table_calls_witness :
  MembershipRequestInternal budget (env_graceful (Some mgr_two_tables))
    stale_before_request =
  Done tt (append_calls [Mgr_UnregisterRibOut 3; Mgr_WalkRibIn 7]
             (set_membership_state MEMBERSHIP_IN_USE stale_before_request)).
Proof.
  apply (proj1 (MembershipRequestInternal_table_calls budget
                  (env_graceful (Some mgr_two_tables)) mgr_two_tables
                  stale_before_request
                  ltac:(vm_compute; discriminate) eq_refl eq_refl
                  ltac:(vm_compute; discriminate))).
  reflexivity.
Defined.

(** ** What holds between handlers *)



(** *** Counters *)

Ltac open_stats :=
  repeat match goal with
         | w : PeerCloseManager |- _ => destruct w
         | s : Stats |- _ => destruct s
         end.

Ltac stats_done :=
  first
    [ exact I
    | open_stats; unfold stats_le in *; cbn in *; lia ].

Lemma restart_stats_le n e w :
  state_ w = NONE -> close_again_ w = false ->
  post (CloseInternal (S n) e w)
       (fun _ w' => stats_le (stats_ w) (stats_ w')).
Proof.
  intros H1 H2. cbn [CloseInternal].
  split_world w; try discriminate H1; try discriminate H2;
    clear H1 H2; run_cases; stats_done.
Qed.

Lemma handle_stats_le h e w :
  post (handle h e w) (fun _ w' => stats_le (stats_ w) (stats_ w')).
Proof.
  destruct h; abstract_reentry e restart_stats_le rec Hrec.
  - split_world w; run_handler rec Hrec; stats_done.
  - unfold ProcessEORMarkerReceived. split_world w; run_cases; stats_done.
  - split_world w; run_handler rec Hrec; stats_done.
  - split_world w; run_handler rec Hrec; stats_done.
  - split_world w; run_handler rec Hrec; stats_done.
  - split_world w; run_handler rec Hrec; stats_done.
Qed.

(** X7.  The statistics are monotonic: over any run of handlers no counter
    ever decreases. *)
Theorem counters_never_decrease (hs : list (Handler * Env))
  (w w' : PeerCloseManager) :
  run_handlers hs w = Done tt w' -> stats_le (stats_ w) (stats_ w').
Proof.
  revert w. induction hs as [|[h e] hs IH]; intros w Hrun.
  - cbn in Hrun. unfold ret in Hrun. simplify_eq. unfold stats_le. lia.
  - cbn [run_handlers] in Hrun. unfold bind in Hrun.
    destruct (handle h e w) as [[] w1|] eqn:Hstep; [|done].
    pose proof (post_elim _ _ _ _ (handle_stats_le h e w) Hstep) as H1.
    specialize (IH _ Hrun). unfold stats_le in *. lia.
Qed.

Lemma counters_never_decrease_witness :
  exists w,
    run_handlers run_gr_expiry PeerCloseManager_new = Done tt w /\
    stats_le (stats_ PeerCloseManager_new) (stats_ w).
Proof.
  eexists. split; [vm_compute; reflexivity|].
  apply (counters_never_decrease run_gr_expiry).
  vm_compute; reflexivity.
Defined.

Ltac ordered_done :=
  first
    [ exact I
    | match goal with
      | H : counters_ordered _ -> counters_ordered ?w |- counters_ordered ?w =>
          apply H
      | |- _ => idtac
      end;
      open_stats; unfold counters_ordered in *; cbn in *; lia ].

Lemma restart_counters_ordered n e w :
  state_ w = NONE -> close_again_ w = false ->
  post (CloseInternal (S n) e w)
       (fun _ w' => counters_ordered w -> counters_ordered w').
Proof.
  intros H1 H2. cbn [CloseInternal].
  split_world w; try discriminate H1; try discriminate H2;
    clear H1 H2; run_cases; try exact I; intros H; ordered_done.
Qed.

Lemma handle_counters_ordered h e w :
  counters_ordered w ->
  post (handle h e w) (fun _ w' => counters_ordered w').
Proof.
  intros H. destruct h; abstract_reentry e restart_counters_ordered rec Hrec.
  - split_world w; run_handler rec Hrec; ordered_done.
  - unfold ProcessEORMarkerReceived. split_world w; run_cases; ordered_done.
  - split_world w; run_handler rec Hrec; ordered_done.
  - split_world w; run_handler rec Hrec; ordered_done.
  - split_world w; run_handler rec Hrec; ordered_done.
  - split_world w; run_handler rec Hrec; ordered_done.
Qed.

(** X8.  Between handlers the phase counters are ordered:
    [llgr_timer <= llgr_stale <= gr_timer <= stale <= close] and
    [nested <= close]; moreover a phase that is running has been counted and
    its successor has not, so each STALE phase starts the GR timer at most
    once, each GR wait leads to at most one LLGR_STALE phase, and each
    LLGR_STALE phase starts the LLGR timer at most once. *)
Theorem reachable_counters_ordered (w : PeerCloseManager) :
  reachable w ->
  counters_ordered w
  /\ llgr_timer (stats_ w) <= llgr_stale (stats_ w)
  /\ llgr_stale (stats_ w) <= gr_timer (stats_ w)
  /\ gr_timer (stats_ w) <= stale (stats_ w)
  /\ stale (stats_ w) <= close (stats_ w)
  /\ nested (stats_ w) <= close (stats_ w).
Proof.
  intros Hr.
  assert (H : counters_ordered w).
  { induction Hr as [|w h e w' _ IH Hstep]; [cbv; lia|].
    exact (post_elim _ _ _ _ (handle_counters_ordered h e w IH) Hstep). }
  split; [exact H|]. unfold counters_ordered in H. cbv zeta in H.
  repeat match type of H with
         | context [if ?b then _ else _] => destruct b
         end; lia.
Qed.

Lemma reachable_counters_ordered_witness :
  exists w,
    run_handlers run_nested_close PeerCloseManager_new = Done tt w /\
    gr_timer (stats_ w) <= stale (stats_ w) /\
    nested (stats_ w) <= close (stats_ w).
Proof.
  eexists. split; [vm_compute; reflexivity|].
  pose proof (reachable_counters_ordered _
                (run_handlers_reachable run_nested_close PeerCloseManager_new
                   _ reachable_new ltac:(vm_compute; reflexivity))) as H.
  split; [exact (proj1 (proj2 (proj2 (proj2 H))))
         | exact (proj2 (proj2 (proj2 (proj2 (proj2 H)))))].
Defined.

(** *** Timers *)

Ltac single_done :=
  first
    [ exact I
    | match goal with
      | H : timers_single _ -> timers_single ?w |- timers_single ?w => apply H
      | |- _ => idtac
      end;
      open_stats; unfold timers_single in *; cbn in *; lia ].

Lemma restart_timers_single n e w :
  state_ w = NONE -> close_again_ w = false ->
  post (CloseInternal (S n) e w)
       (fun _ w' => timers_single w -> timers_single w').
Proof.
  intros H1 H2. cbn [CloseInternal].
  split_world w; try discriminate H1; try discriminate H2;
    clear H1 H2; run_cases; try exact I; intros H; single_done.
Qed.

Lemma handle_timers_single h e w :
  timers_single w -> post (handle h e w) (fun _ w' => timers_single w').
Proof.
  intros H. destruct h; abstract_reentry e restart_timers_single rec Hrec.
  - split_world w; run_handler rec Hrec; single_done.
  - unfold ProcessEORMarkerReceived. split_world w; run_cases; single_done.
  - split_world w; run_handler rec Hrec; single_done.
  - split_world w; run_handler rec Hrec; single_done.
  - split_world w; run_handler rec Hrec; single_done.
  - split_world w; run_handler rec Hrec; single_done.
Qed.

(** X9.  Every arming cancels first, so between handlers neither the
    restart timer nor the sweep timer ever holds more than one scheduled
    expiry. *)
Theorem reachable_timers_single (w : PeerCloseManager) :
  reachable w -> timers_single w.
Proof.
  induction 1 as [|w h e w' _ IH Hstep]; [cbv; lia|].
  exact (post_elim _ _ _ _ (handle_timers_single h e w IH) Hstep).
Qed.

Lemma reachable_timers_single_witness :
  exists w,
    run_handlers run_nested_close PeerCloseManager_new = Done tt w /\
    timers_single w.
Proof.
  eexists. split; [vm_compute; reflexivity|].
  apply reachable_timers_single.
  apply (run_handlers_reachable run_nested_close PeerCloseManager_new);
    [exact reachable_new | vm_compute; reflexivity].
Defined.

(** ** Introspection *)

(** X10.  State names identify states, and the snapshot built by
    [FillCloseInfo] determines exactly the state, the two flags and the
    seven counters it copies: two managers give the same snapshot if and
    only if they agree on these, whatever their [llgr_stale] and
    [llgr_timer] counters, elapsed times, families, membership phase and
    timers. *)
Theorem FillCloseInfo_reports :
  (forall a b, GetStateName a = GetStateName b <-> a = b)
  /\ (forall w w',
        FillCloseInfo w = FillCloseInfo w' <->
        state_ w = state_ w' /\ close_again_ w = close_again_ w' /\
        non_graceful_ w = non_graceful_ w' /\
        init (stats_ w) = init (stats_ w') /\
        close (stats_ w) = close (stats_ w') /\
        nested (stats_ w) = nested (stats_ w') /\
        deletes (stats_ w) = deletes (stats_ w') /\
        stale (stats_ w) = stale (stats_ w') /\
        sweep (stats_ w) = sweep (stats_ w') /\
        gr_timer (stats_ w) = gr_timer (stats_ w')).
Proof.
  assert (Hinj : forall a b, GetStateName a = GetStateName b -> a = b).
  { intros [] []; cbn; intros H; try reflexivity; discriminate H. }
  split.
  - intros a b. split; [apply Hinj | by intros ->].
  - intros w w'. unfold FillCloseInfo. split.
    + intros H. injection H as H1 H2 H3 H4 H5 H6 H7 H8 H9 H10.
      apply Hinj in H1. by repeat split.
    + intros (-> & -> & -> & -> & -> & -> & -> & -> & -> & ->). reflexivity.
Qed.

(** ** A close arriving during the LLGR wait *)

Lemma restart_states n e w :
  state_ w = NONE -> close_again_ w = false ->
  post (CloseInternal (S n) e w)
       (fun _ w' =>
          (state_ w' = STALE \/ state_ w' = GR_TIMER \/
           state_ w' = DELETE \/ state_ w' = NONE) /\
          llgr_timer (stats_ w') = llgr_timer (stats_ w) /\
          llgr_stale (stats_ w') = llgr_stale (stats_ w)).
Proof.
  intros H1 H2. cbn [CloseInternal].
  split_world w; try discriminate H1; try discriminate H2;
    clear H1 H2; run_cases; try exact I; cbn; intuition.
Qed.

(** X11.  A [Close] arriving in [LLGR_TIMER] with [close_again_] false adds
    the timer's elapsed time to [llgr_elapsed_] only, counts a nested close
    and calls [CloseComplete]; the restarted cycle starts over from [NONE],
    so the handler returns in [STALE], [GR_TIMER], [DELETE] or [NONE] and
    never directly in an LLGR phase. *)
Theorem Close_in_LLGR_TIMER_restarts (non_graceful : bool) (e : Env)
  (w : PeerCloseManager) :
  state_ w = LLGR_TIMER -> close_again_ w = false ->
  Close non_graceful e w =
  CloseComplete budget e (nested_in_LLGR_TIMER non_graceful e w)
  /\ gr_elapsed_ (nested_in_LLGR_TIMER non_graceful e w) = gr_elapsed_ w
  /\ post (Close non_graceful e w)
          (fun _ w' =>
             (state_ w' = STALE \/ state_ w' = GR_TIMER \/
              state_ w' = DELETE \/ state_ w' = NONE) /\
             llgr_timer (stats_ w') = llgr_timer (stats_ w) /\
             llgr_stale (stats_ w') = llgr_stale (stats_ w)).
Proof.
  intros Hs Hc. split; [|split].
  - transitivity (CloseComplete 1 e (nested_in_LLGR_TIMER non_graceful e w)).
    + destruct w as [st ca ? ? ? ? ? ? ? ? ?]. cbn in Hs, Hc. subst st ca.
      unfold Close, budget.
      change (CloseInternal 2 e)
        with (CloseInternal_body (CloseInternal 1 e) e).
      unfold nested_in_LLGR_TIMER. run_prefix. reflexivity.
    + apply CloseComplete_body_agree, CloseInternal_idle.
  - by destruct w.
  - abstract_reentry e restart_states rec Hrec.
    destruct w as [st ca ? ? ? ms ? ? ? ? ?]. cbn in Hs, Hc. subst st ca.
    destruct ms; run_handler rec Hrec; try exact I; exact Hre.
Qed.

Lemma Close_in_LLGR_TIMER_restarts_witness :
  Close false (env_llgr (Some mgr_one_table)) waiting_in_llgr =
  CloseComplete budget (env_llgr (Some mgr_one_table))
    (nested_in_LLGR_TIMER false (env_llgr (Some mgr_one_table))
       waiting_in_llgr)
  /\ gr_elapsed_ (nested_in_LLGR_TIMER false (env_llgr (Some mgr_one_table))
                   waiting_in_llgr) = 0%Z.
Proof.
  pose proof (Close_in_LLGR_TIMER_restarts false
                (env_llgr (Some mgr_one_table)) waiting_in_llgr
                eq_refl eq_refl) as H.
  split; [exact (proj1 H) | exact (proj1 (proj2 H))].
Defined.

(** ** The per-path callback, continued *)

Lemma lor_land_same a b : Z.land (Z.lor a b) b = b.
Proof.
  apply Z.bits_inj'. intros n Hn.
  rewrite Z.land_spec, Z.lor_spec.
  by destruct (Z.testbit a n), (Z.testbit b n).
Qed.

Lemma ldiff_ldiff_land_orig a b c :
  Z.land (Z.ldiff (Z.ldiff a b) c) a = Z.ldiff (Z.ldiff a b) c.
Proof.
  apply Z.bits_inj'. intros n Hn.
  rewrite Z.land_spec, !Z.ldiff_spec.
  by destruct (Z.testbit a n), (Z.testbit b n), (Z.testbit c n).
Qed.

(** X12.  Staling is idempotent.  Once the flags fed for a path in [STALE]
    (or in [LLGR_STALE], for a path without the NO_LLGR community) are
    stored in the path, a second visit in the same phase returns false and
    feeds nothing, provided the flag constant is not zero. *)
Theorem MembershipPathCallback_revisit
  (Stale LlgrStale NoLlgr : Z) (InputCommon : InputRequest -> bool)
  (t : BgpTable) (path : BgpPath) :
  let callback :=
    MembershipPathCallback Stale LlgrStale NoLlgr InputCommon (Some t) in
  let stamped flag :=
    mkPath (GetAttr path) (GetPathId path) (Z.lor (GetFlags path) flag)
           (GetLabel path) in
  (Stale <> 0%Z ->
   callback STALE (stamped Stale) =
   Some (mkOutcome false (stamped Stale) None))
  /\ (LlgrStale <> 0%Z ->
      match community (GetAttr path) with
      | Some comm => ContainsValue comm NoLlgr
      | None => false
      end = false ->
      callback LLGR_STALE (stamped LlgrStale) =
      Some (mkOutcome false (stamped LlgrStale) None)).
Proof.
  cbv zeta. unfold MembershipPathCallback, IsStale, IsLlgrStale.
  cbn [GetFlags GetAttr]. rewrite !lor_land_same. split.
  - intros H. by rewrite (proj2 (Z.eqb_neq _ _) H).
  - intros H ->. by rewrite (proj2 (Z.eqb_neq _ _) H).
Qed.

Lemma MembershipPathCallback_revisit_witness :
  MembershipPathCallback 4 256 4294901767 (fun _ => true) (Some 7%nat) STALE
    (mkPath (mkAttr 1 None) 5 (Z.lor 1 4) 16) =
  Some (mkOutcome false (mkPath (mkAttr 1 None) 5 (Z.lor 1 4) 16) None)
  /\ MembershipPathCallback 4 256 4294901767 (fun _ => true) (Some 7%nat)
       LLGR_STALE (mkPath (mkAttr 1 None) 5 (Z.lor 1 256) 16) =
     Some (mkOutcome false (mkPath (mkAttr 1 None) 5 (Z.lor 1 256) 16) None).
Proof.
  pose proof (MembershipPathCallback_revisit 4 256 4294901767 (fun _ => true)
                7%nat (mkPath (mkAttr 1 None) 5 1 16)) as H.
  cbv zeta in H. split.
  - apply (proj1 H). vm_compute; discriminate.
  - apply (proj2 H); [vm_compute; discriminate | reflexivity].
Defined.

(** X13.  The callback itself never stales a path: whatever the state, the
    path it leaves has the attributes, path id and label it had, and no flag
    bit it did not have; when nothing is fed the path is untouched and the
    callback returns false, and when a request is fed the callback returns
    what the table input returns.  With a null table the assertion fails. *)
Theorem MembershipPathCallback_path_effect
  (Stale LlgrStale NoLlgr : Z) (InputCommon : InputRequest -> bool)
  (t : BgpTable) (st : State) (path : BgpPath) :
  (exists out,
     MembershipPathCallback Stale LlgrStale NoLlgr InputCommon (Some t) st path
     = Some out /\
     GetAttr (path_after out) = GetAttr path /\
     GetPathId (path_after out) = GetPathId path /\
     GetLabel (path_after out) = GetLabel path /\
     Z.land (GetFlags (path_after out)) (GetFlags path) =
     GetFlags (path_after out) /\
     match fed out with
     | None => path_after out = path /\ returned out = false
     | Some req => returned out = InputCommon req
     end)
  /\ MembershipPathCallback Stale LlgrStale NoLlgr InputCommon None st path
     = None.
Proof.
  split; [|reflexivity].
  unfold MembershipPathCallback, feed.
  destruct st; repeat case_match; eexists; (split; [reflexivity|]);
    cbn; rewrite ?Z.land_diag, ?ldiff_ldiff_land_orig; by repeat split.
Qed.

(** ** What a cycle never does *)

(** X14.  [DELETE] is final for a cycle.  Whatever handler runs in [DELETE],
    the manager stays in [DELETE] or arrives in [NONE] with [close_again_]
    and [non_graceful_] cleared; a close latched meanwhile is dropped, and no
    graceful phase is started: [stale], [sweep] and [gr_timer] keep their
    values. *)
Theorem DELETE_is_final (h : Handler) (e : Env) (w : PeerCloseManager) :
  state_ w = DELETE ->
  post (handle h e w)
       (fun _ w' =>
          (state_ w' = DELETE \/
           (state_ w' = NONE /\ close_again_ w' = false /\
            non_graceful_ w' = false)) /\
          stale (stats_ w') = stale (stats_ w) /\
          sweep (stats_ w') = sweep (stats_ w) /\
          gr_timer (stats_ w') = gr_timer (stats_ w)).
Proof.
  intros Hs. destruct h; abstract_reentry e restart_total rec Hrec;
    try unfold ProcessEORMarkerReceived;
    destruct w as [st ca ? ? ? ms ? ? ? ? ?]; cbn in Hs; subst st;
    destruct ca, ms; run_handler rec Hrec; try exact I; cbn; intuition.
Qed.

Lemma DELETE_is_final_witness :
  exists w',
    handle OnMembershipRequestCallback (env_graceful (Some mgr_no_tables))
      (set_close_again true (walking DELETE)) = Done tt w' /\
    state_ w' = NONE /\ close_again_ w' = false /\ stale (stats_ w') = 0.
Proof.
  eexists. split; [vm_compute; reflexivity|].
  pose proof (DELETE_is_final OnMembershipRequestCallback
                (env_graceful (Some mgr_no_tables))
                (set_close_again true (walking DELETE)) eq_refl) as H.
  by repeat split.
Defined.

Lemma restart_keeps_non_graceful n e w :
  state_ w = NONE -> close_again_ w = false -> non_graceful_ w = true ->
  post (CloseInternal (S n) e w)
       (fun _ w' => non_graceful_ w' = true \/ state_ w' = NONE).
Proof.
  intros H1 H2 H3. cbn [CloseInternal].
  destruct w as [st ca ng ? ? ms ? ? ? ? ?]. cbn in H1, H2, H3. subst st ca ng.
  destruct ms; run_cases; try exact I; cbn; auto.
Qed.

(** X15.  [non_graceful_] is sticky: once set, it is still set when a
    handler returns, unless the handler returns in [NONE]. *)
Theorem non_graceful_until_NONE (h : Handler) (e : Env)
  (w : PeerCloseManager) :
  non_graceful_ w = true ->
  post (handle h e w)
       (fun _ w' => non_graceful_ w' = true \/ state_ w' = NONE).
Proof.
  intros Hn. destruct h; abstract_reentry e restart_keeps_non_graceful rec Hrec;
    try unfold ProcessEORMarkerReceived;
    destruct w as [st ca ng ? ? ms ? ? ? ? ?]; cbn in Hn; subst ng;
    destruct st, ca, ms; run_handler rec Hrec;
    try exact I; try assumption; cbn; auto.
Qed.

Lemma non_graceful_until_NONE_witness :
  exists w',
    handle (OnClose false) (env_graceful (Some mgr_one_table))
      (set_non_graceful true stale_with_latched_close) = Done tt w' /\
    (non_graceful_ w' = true \/ state_ w' = NONE).
Proof.
  eexists. split; [vm_compute; reflexivity|].
  exact (non_graceful_until_NONE (OnClose false)
           (env_graceful (Some mgr_one_table))
           (set_non_graceful true stale_with_latched_close) eq_refl).
Defined.

(** X16.  A [Close] never interrupts a walk: in [STALE], [LLGR_STALE],
    [SWEEP] or [DELETE] it returns with [close_again_] set and with the
    state, the membership phase, the elapsed times, the families, both
    timers and the call log as they were. *)
Theorem Close_during_walk (non_graceful : bool) (e : Env)
  (w : PeerCloseManager) :
  walk_state (state_ w) = true ->
  exists w',
    Close non_graceful e w = Done tt w' /\
    close_again_ w' = true /\
    state_ w' = state_ w /\
    membership_state_ w' = membership_state_ w /\
    gr_elapsed_ w' = gr_elapsed_ w /\ llgr_elapsed_ w' = llgr_elapsed_ w /\
    families_ w' = families_ w /\
    stale_timer_ w' = stale_timer_ w /\ sweep_timer_ w' = sweep_timer_ w /\
    calls w' = calls w.
Proof.
  intros Hs. destruct w as [st ca ? ? ? ms ? ? ? ? ?]. cbn in Hs.
  unfold Close, budget.
  change (CloseInternal 2 e) with (CloseInternal_body (CloseInternal 1 e) e).
  destruct st; try discriminate Hs; destruct ca; run_prefix;
    eexists; (split; [reflexivity|]); by repeat split.
Qed.

Lemma Close_during_walk_witness :
  exists w',
    Close true (env_graceful (Some mgr_one_table)) (walking SWEEP) = Done tt w' /\
    close_again_ w' = true /\ state_ w' = SWEEP /\
    calls w' = calls (walking SWEEP).
Proof.
  destruct (Close_during_walk true (env_graceful (Some mgr_one_table))
              (walking SWEEP) eq_refl)
    as (w' & H1 & H2 & H3 & _ & _ & _ & _ & _ & _ & H4).
  exists w'. by repeat split.
Defined.

(** ** The restart timer callback *)

(** X17.  The restart timer callback tolerates a late delivery: outside
    [GR_TIMER] and [LLGR_TIMER] it changes nothing.  Delivered in a wait
    state with no close latched, it always ends the wait: from [GR_TIMER]
    the manager leaves in [SWEEP], [LLGR_STALE], [LLGR_TIMER], [DELETE] or
    [NONE], from [LLGR_TIMER] in [SWEEP], [DELETE] or [NONE].  Whenever it
    returns, it returns false. *)
Theorem RestartTimerCallback_outcomes (e : Env) (w : PeerCloseManager) :
  (state_ w <> GR_TIMER -> state_ w <> LLGR_TIMER ->
   RestartTimerCallback e w = Done false w)
  /\ (state_ w = GR_TIMER -> close_again_ w = false ->
      post (RestartTimerCallback e w)
           (fun _ w' =>
              state_ w' = SWEEP \/ state_ w' = LLGR_STALE \/
              state_ w' = LLGR_TIMER \/ state_ w' = DELETE \/
              state_ w' = NONE))
  /\ (state_ w = LLGR_TIMER -> close_again_ w = false ->
      post (RestartTimerCallback e w)
           (fun _ w' =>
              state_ w' = SWEEP \/ state_ w' = DELETE \/ state_ w' = NONE))
  /\ (forall r w', RestartTimerCallback e w = Done r w' -> r = false).
Proof.
  destruct w as [st ca ? ? ? ms ? ? ? ? ?]. cbn [state_ close_again_].
  repeat match goal with |- _ /\ _ => split end.
  - intros H1 H2. destruct st; try reflexivity; by exfalso.
  - intros -> ->. abstract_reentry e restart_total rec Hrec.
    destruct ms; run_handler rec Hrec; try exact I; cbn; intuition.
  - intros -> ->. abstract_reentry e restart_total rec Hrec.
    destruct ms; run_handler rec Hrec; try exact I; cbn; intuition.
  - intros r w'. abstract_reentry e restart_total rec Hrec.
    destruct st, ca, ms; run_handler rec Hrec; intros H; by simplify_eq.
Qed.

Lemma RestartTimerCallback_outcomes_witness :
  RestartTimerCallback (env_graceful (Some mgr_one_table)) sweeping =
  Done false sweeping
  /\ exists w',
      RestartTimerCallback (env_llgr (Some mgr_one_table)) waiting_in_llgr =
      Done false w' /\
      (state_ w' = SWEEP \/ state_ w' = DELETE \/ state_ w' = NONE).
Proof.
  split.
  - apply (proj1 (RestartTimerCallback_outcomes
             (env_graceful (Some mgr_one_table)) sweeping));
      vm_compute; discriminate.
  - eexists. split; [vm_compute; reflexivity|].
    exact (proj1 (proj2 (proj2 (RestartTimerCallback_outcomes
             (env_llgr (Some mgr_one_table)) waiting_in_llgr)))
             eq_refl eq_refl).
Defined.

(** ** How the steps compose *)

(** X18.  The sweep is deferred.  When the SWEEP walk is done (no close
    latched, nothing pending) the walk-done callback only releases the
    membership phase and arms the sweep timer at 0; the peer's
    [GracefulRestartSweep] is called by the sweep timer callback, which
    leaves the manager in [NONE]. *)
Theorem SWEEP_walk_done_defers (e e' : Env) (mgr : BgpMembershipManager)
  (w : PeerCloseManager) :
  state_ w = SWEEP -> close_again_ w = false ->
  membership_state_ w = MEMBERSHIP_IN_USE ->
  server_membership_mgr e = Some mgr -> IsPending mgr = false ->
  MembershipRequestCallback e w = Done true (sweep_deferred w)
  /\ calls (sweep_deferred w) = calls w
  /\ ProcessSweepStateActions e' (sweep_deferred w) =
     Done false (swept (sweep_deferred w))
  /\ state_ (swept (sweep_deferred w)) = NONE
  /\ calls (swept (sweep_deferred w)) =
     calls w ++ [IPeerClose_GracefulRestartSweep].
Proof.
  intros Hs Hc Hm He Hp.
  destruct w as [st ca ? ? ? ms ? ? ? ? ?]. cbn in Hs, Hc, Hm. subst st ca ms.
  split; [|split; [|split; [|split]]].
  - unfold sweep_deferred. run. rewrite walk_done_guard_true. run.
    rewrite He. run. rewrite Hp. run. reflexivity.
  - reflexivity.
  - unfold sweep_deferred. run_more. reflexivity.
  - reflexivity.
  - reflexivity.
Qed.

Lemma SWEEP_walk_done_defers_witness :
  MembershipRequestCallback (env_graceful (Some mgr_one_table))
    (walking SWEEP) = Done true (sweep_deferred (walking SWEEP)).
Proof.
  exact (proj1 (SWEEP_walk_done_defers (env_graceful (Some mgr_one_table))
                  (env_graceful (Some mgr_one_table)) mgr_one_table
                  (walking SWEEP) eq_refl eq_refl eq_refl eq_refl eq_refl)).
Defined.

(** X19.  The walk-done callback is a no-op returning false while the
    membership manager still reports pending work; it fails its assertion
    when the manager does not hold the membership phase, and it dereferences
    the membership manager, so a null handle is fatal. *)
Theorem MembershipRequestCallback_not_done (e : Env) (w : PeerCloseManager) :
  (membership_state_ w <> MEMBERSHIP_IN_USE ->
   MembershipRequestCallback e w = Fail AssertionFailed)
  /\ (membership_state_ w = MEMBERSHIP_IN_USE ->
      server_membership_mgr e = None ->
      MembershipRequestCallback e w = Fail NullDereference)
  /\ (forall mgr,
        membership_state_ w = MEMBERSHIP_IN_USE ->
        server_membership_mgr e = Some mgr -> IsPending mgr = true ->
        MembershipRequestCallback e w = Done false w).
Proof.
  destruct w as [st ca ? ? ? ms ? ? ? ? ?]. cbn [membership_state_].
  unfold MembershipRequestCallback, MembershipRequestCallbackInternal.
  generalize (CloseInternal budget e). intros rec.
  repeat match goal with |- _ /\ _ => split end.
  - intros H. destruct ms; try (by exfalso); run;
      rewrite walk_done_guard_true; reflexivity.
  - intros -> He. run. rewrite walk_done_guard_true. run. rewrite He.
    reflexivity.
  - intros mgr -> He Hp. run. rewrite walk_done_guard_true. run. rewrite He.
    run. rewrite Hp. reflexivity.
Qed.

Lemma MembershipRequestCallback_not_done_witness :
  MembershipRequestCallback (env_graceful (Some mgr_one_table))
    stale_before_request = Fail AssertionFailed
  /\ MembershipRequestCallback (env_graceful None) (walking STALE) =
     Fail NullDereference.
Proof.
  split.
  - apply (proj1 (MembershipRequestCallback_not_done
             (env_graceful (Some mgr_one_table)) stale_before_request)).
    vm_compute; discriminate.
  - exact (proj1 (proj2 (MembershipRequestCallback_not_done
             (env_graceful None) (walking STALE))) eq_refl eq_refl).
Defined.

(** X20.  With no table registered the walks complete within the call.  A
    [Close] in [NONE] that deletes (a non-graceful request, or a peer
    without GR) runs the whole cycle: [CustomClose], then [Delete], and the
    manager is back in [NONE] with the flags and elapsed times cleared.  A
    graceful [Close] reaches the GR wait: [GracefulRestartStale], then the
    peer's [CloseComplete], and the restart timer armed once. *)
Theorem Close_without_tables (non_graceful : bool) (e : Env)
  (mgr : BgpMembershipManager) (w : PeerCloseManager) :
  state_ w = NONE -> close_again_ w = false ->
  membership_state_ w <> MEMBERSHIP_IN_USE ->
  CanUseMembershipManager e = true ->
  membership_mgr e = Some mgr ->
  GetRegisteredRibs mgr = [] -> IsPending mgr = false ->
  (non_graceful_ w || non_graceful || negb (IsCloseGraceful e) = true ->
   Close non_graceful e w = Done tt (delete_completed w))
  /\ (non_graceful_ w || non_graceful || negb (IsCloseGraceful e) = false ->
      Close non_graceful e w = Done tt (graceful_waiting e w)).
Proof.
  unfold CanUseMembershipManager, membership_mgr.
  intros Hs Hc Hm Hu He Ht Hp.
  destruct w as [st ca ng ? ? ms ? [? ? ? ? ? ? ? ? ?] ? ? ?].
  cbn in Hs, Hc, Hm. subst st ca.
  unfold Close, budget, delete_completed, graceful_waiting, adjusted_delay.
  change (CloseInternal 2 e) with (CloseInternal_body (CloseInternal 1 e) e).
  generalize (CloseInternal 1 e). intros rec.
  split; intros H;
    destruct ms; try (by exfalso);
    destruct ng, non_graceful, (IsCloseGraceful e) eqn:Hg;
    try discriminate H; clear H;
    run; rewrite ?Hg, ?Hu; run; rewrite ?He; run; rewrite ?Ht; run;
    rewrite ?walk_done_guard_true; run; rewrite ?He; run; rewrite ?Hp; run;
    rewrite <- ?app_assoc; reflexivity.
Qed.

Lemma Close_without_tables_witness :
  Close true (env_graceful (Some mgr_no_tables)) PeerCloseManager_new =
  Done tt (delete_completed PeerCloseManager_new)
  /\ Close false (env_graceful (Some mgr_no_tables)) PeerCloseManager_new =
     Done tt (graceful_waiting (env_graceful (Some mgr_no_tables))
                PeerCloseManager_new).
Proof.
  split.
  - apply (proj1 (Close_without_tables true
             (env_graceful (Some mgr_no_tables)) mgr_no_tables
             PeerCloseManager_new eq_refl eq_refl
             ltac:(vm_compute; discriminate) eq_refl eq_refl eq_refl eq_refl)).
    reflexivity.
  - apply (proj2 (Close_without_tables false
             (env_graceful (Some mgr_no_tables)) mgr_no_tables
             PeerCloseManager_new eq_refl eq_refl
             ltac:(vm_compute; discriminate) eq_refl eq_refl eq_refl eq_refl)).
    reflexivity.
Defined.
